(** * Loan decision workflow: admissibility, scoring, status assignment

    A shallow embedding of the decision logic of the consumer-loan
    application backend ([Proyecto/backend/loans.routes.js]) and of the
    preview helpers of the React client ([estimateMonthlyPayment],
    [computeScore], [clamp]), followed by the properties the
    specification states about them.

    Number model.  A JavaScript number is modelled as an exact rational
    extended with the three special values [Infinity], [-Infinity] and
    [NaN].  Arithmetic on finite values is exact: the rounding of
    binary64 and its overflow and underflow are not part of the model,
    and zero is unsigned.  The special values follow IEEE 754 as
    JavaScript exposes it: [x / 0] is an infinity for [x <> 0] and [NaN]
    for [x = 0], every comparison with [NaN] is false, [0] and [NaN] are
    the falsy numbers. *)

From Stdlib Require Import ZArith QArith Qround Qpower Bool List Ascii String Lia Lqa.
From Stdlib Require Import DecimalString.
Import ListNotations.

Local Open Scope Q_scope.

(** ** JavaScript numbers *)

Module JsNum.

Inductive jsnum : Type :=
| Fin (q : Q)
| PInf
| NInf
| NaN.

Definition Qis_zero (q : Q) : bool := Qeq_bool q 0.
Definition Qis_pos (q : Q) : bool := negb (Qle_bool q 0).
Definition Qis_int (q : Q) : bool := (Qnum q mod Zpos (Qden q) =? 0)%Z.

(** [!x] is true exactly for the falsy numbers [0] and [NaN]. *)
Definition truthy (x : jsnum) : bool :=
  match x with
  | Fin q => negb (Qis_zero q)
  | PInf | NInf => true
  | NaN => false
  end.

(** [a || b] on numbers. *)
Definition js_or (a b : jsnum) : jsnum := if truthy a then a else b.

Definition js_neg (x : jsnum) : jsnum :=
  match x with
  | Fin q => Fin (- q)
  | PInf => NInf
  | NInf => PInf
  | NaN => NaN
  end.

Definition js_add (x y : jsnum) : jsnum :=
  match x, y with
  | NaN, _ | _, NaN => NaN
  | Fin a, Fin b => Fin (a + b)
  | PInf, NInf | NInf, PInf => NaN
  | PInf, _ | _, PInf => PInf
  | NInf, _ | _, NInf => NInf
  end.

Definition js_sub (x y : jsnum) : jsnum :=
  match x, y with
  | NaN, _ | _, NaN => NaN
  | Fin a, Fin b => Fin (a - b)
  | PInf, PInf | NInf, NInf => NaN
  | PInf, _ | _, NInf => PInf
  | NInf, _ | _, PInf => NInf
  end.

(** The infinity with the sign of [q], [NaN] for [q = 0]. *)
Definition signed_inf (q : Q) : jsnum :=
  if Qis_zero q then NaN else if Qis_pos q then PInf else NInf.

Definition js_mul (x y : jsnum) : jsnum :=
  match x, y with
  | NaN, _ | _, NaN => NaN
  | Fin a, Fin b => Fin (a * b)
  | Fin a, PInf | PInf, Fin a => signed_inf a
  | Fin a, NInf | NInf, Fin a => signed_inf (- a)
  | PInf, PInf | NInf, NInf => PInf
  | PInf, NInf | NInf, PInf => NInf
  end.

(** Division; a zero divisor is the unsigned (positive) zero. *)
Definition js_div (x y : jsnum) : jsnum :=
  match x, y with
  | NaN, _ | _, NaN => NaN
  | Fin a, Fin b => if Qis_zero b then signed_inf a else Fin (a / b)
  | Fin _, PInf | Fin _, NInf => Fin 0
  | PInf, Fin b => if Qle_bool 0 b then PInf else NInf
  | NInf, Fin b => if Qle_bool 0 b then NInf else PInf
  | PInf, _ | NInf, _ => NaN
  end.

(** [x <= y]. *)
Definition js_le (x y : jsnum) : bool :=
  match x, y with
  | NaN, _ | _, NaN => false
  | Fin a, Fin b => Qle_bool a b
  | NInf, _ | _, PInf => true
  | PInf, _ | _, NInf => false
  end.

(** [x < y]. *)
Definition js_lt (x y : jsnum) : bool :=
  match x, y with
  | NaN, _ | _, NaN => false
  | Fin a, Fin b => negb (Qle_bool b a)
  | PInf, _ | _, NInf => false
  | NInf, _ | _, PInf => true
  end.

(** [x >= y]. *)
Definition js_ge (x y : jsnum) : bool := js_le y x.

(** [x === y] on numbers. *)
Definition js_strict_eq (x y : jsnum) : bool :=
  match x, y with
  | Fin a, Fin b => Qeq_bool a b
  | PInf, PInf | NInf, NInf => true
  | _, _ => false
  end.

(** [Math.min(x, y)] and [Math.max(x, y)]. *)
Definition Math_min (x y : jsnum) : jsnum :=
  match x, y with
  | NaN, _ | _, NaN => NaN
  | _, _ => if js_le x y then x else y
  end.

Definition Math_max (x y : jsnum) : jsnum :=
  match x, y with
  | NaN, _ | _, NaN => NaN
  | _, _ => if js_le x y then y else x
  end.

(** The integer [Math.round] returns on a finite number: the nearest
    integer, a tie going up ([floor (q + 1/2)]). *)
Definition Qround_half_up (q : Q) : Z := Qfloor (q + (1 # 2)).

Definition Math_round (x : jsnum) : jsnum :=
  match x with
  | Fin q => Fin (inject_Z (Qround_half_up q))
  | _ => x
  end.

(** [Math.pow(x, e)] at an integer exponent [e]. *)
Definition Math_pow (x : jsnum) (e : Z) : jsnum :=
  if (e =? 0)%Z then Fin 1 else
  match x with
  | NaN => NaN
  | Fin q =>
      if Qis_zero q then (if (0 <? e)%Z then Fin 0 else PInf) else Fin (q ^ e)
  | PInf => if (0 <? e)%Z then PInf else Fin 0
  | NInf => if (0 <? e)%Z then (if Z.odd e then NInf else PInf) else Fin 0
  end.

(** A number literal with an integer value. *)
Definition num (z : Z) : jsnum := Fin (inject_Z z).

End JsNum.

Import JsNum.

(** ** The client's helpers ([LoanRequestView]) *)

Module Client.

(** [const clamp = (n, min, max) => Math.min(max, Math.max(min, n))] *)
Definition clamp (n min max : jsnum) : jsnum := Math_min max (Math_max min n).

(** [estimateMonthlyPayment(capital, meses, tasaMensual = 0.019)].  The
    month count is an integer, which keeps [Math.pow] rational; an
    omitted rate is [None]. *)
Definition estimateMonthlyPayment
    (capital : jsnum) (meses : Z) (tasaMensual : option jsnum) : jsnum :=
  let tasaMensual := match tasaMensual with Some t => t | None => Fin (19 # 1000) end in
  if negb (truthy capital) || negb (truthy (num meses)) then num 0
  else if js_strict_eq tasaMensual (num 0)
  then Math_round (js_div capital (num meses))
  else
    let r := tasaMensual in
    let cuota :=
      js_div (js_mul capital r)
             (js_sub (num 1) (Math_pow (js_add (num 1) r) (- meses))) in
    Math_round cuota.

(** [computeScore(ingreso, monto, term)], the preview copy. *)
Definition computeScore (ingreso monto term : jsnum) : jsnum :=
  let safeTerm := js_or term (num 24) in
  if negb (truthy monto) || js_lt ingreso (num 0) then num 1
  else
    let base := js_add (num 60) (js_div ingreso (js_div monto safeTerm)) in
    clamp (Math_round base) (num 1) (num 100).

End Client.

(** ** The server's rules ([loans.routes.js]) *)

Module Server.

(** [function isAdmissible({ income = 0, amount })] *)
Definition isAdmissible (income : option jsnum) (amount : jsnum) : bool :=
  let income := match income with Some i => i | None => num 0 end in
  if negb (truthy income) then false
  else js_le amount (js_mul income (num 20)).

(** [function computeScore({ income = 0, amount, term_months })] *)
Definition computeScore
    (income : option jsnum) (amount : jsnum) (term_months : option jsnum) : jsnum :=
  let income := match income with Some i => i | None => num 0 end in
  let term := match term_months with Some t => js_or t (num 24) | None => num 24 end in
  let base := js_add (num 60) (js_div income (js_div amount term)) in
  let s := Math_round (Math_max (num 1) (Math_min (num 100) base)) in
  s.

(** *** Request bodies and [ApplySchema] *)

Local Open Scope string_scope.
#[local] Set Warnings "-register-all".

(** A JSON document, as [express.json()] hands it to the route and as
    [res.json] sends it back.  A JSON number is finite.  An object is its
    list of fields, a key being read at its first occurrence. *)
Inductive jsval : Type :=
| VUndef
| VNull
| VBool (b : bool)
| VNum (q : Q)
| VStr (s : string)
| VArr (items : list jsval)
| VObj (fields : list (string * jsval)).

Fixpoint get_field (k : string) (fields : list (string * jsval)) : jsval :=
  match fields with
  | [] => VUndef
  | (k', v) :: rest => if String.eqb k k' then v else get_field k rest
  end.

(** [parsed.data] *)
Record Payload : Type := mkPayload {
  rut : string;
  full_name : string;
  email : string;
  amount : Q;
  term_months : Q;
  income : option Q
}.

(** [parsed.error.flatten()]: an error on the body as a whole, or the keys
    of the offending fields (the message texts are zod's and are left
    out). *)
Inductive FlatError : Type :=
| FormErrors
| FieldErrors (keys : list string).

Inductive SafeParseResult : Type :=
| ParseSuccess (data : Payload)
| ParseFailure (error : FlatError).

Definition success (r : SafeParseResult) : bool :=
  match r with ParseSuccess _ => true | ParseFailure _ => false end.

(** [z.string().min(3)].  Lengths are those of the model's strings;
    JavaScript counts UTF-16 units and PostgreSQL characters, and the
    three agree on ASCII text. *)
Definition z_string_min (n : nat) (v : jsval) : option string :=
  match v with
  | VStr s => if (n <=? String.length s)%nat then Some s else None
  | _ => None
  end.

(** [z.number().positive()] *)
Definition z_number_positive (v : jsval) : option Q :=
  match v with
  | VNum q => if Qis_pos q then Some q else None
  | _ => None
  end.

(** [z.number().int().positive()] *)
Definition z_number_int_positive (v : jsval) : option Q :=
  match v with
  | VNum q => if Qis_int q && Qis_pos q then Some q else None
  | _ => None
  end.

(** [z.number().positive().optional()] *)
Definition z_number_positive_optional (v : jsval) : option (option Q) :=
  match v with
  | VUndef => Some None
  | _ => option_map Some (z_number_positive v)
  end.

(** The key is reported when its field did not parse. *)
Definition issue {A : Type} (k : string) (r : option A) : list string :=
  match r with Some _ => [] | None => [k] end.

Section Schema.

(** [z.string().email()]: the address test is zod's. *)
Variable is_email : string -> bool.

Definition z_string_email (v : jsval) : option string :=
  match v with
  | VStr s => if is_email s then Some s else None
  | _ => None
  end.

(** [ApplySchema.safeParse(req.body)] *)
Definition safeParse (body : jsval) : SafeParseResult :=
  match body with
  | VObj fields =>
      let r_rut := z_string_min 3 (get_field "rut" fields) in
      let r_full_name := z_string_min 3 (get_field "full_name" fields) in
      let r_email := z_string_email (get_field "email" fields) in
      let r_amount := z_number_positive (get_field "amount" fields) in
      let r_term_months := z_number_int_positive (get_field "term_months" fields) in
      let r_income := z_number_positive_optional (get_field "income" fields) in
      match r_rut, r_full_name, r_email, r_amount, r_term_months, r_income with
      | Some a, Some b, Some c, Some d, Some e, Some f =>
          ParseSuccess (mkPayload a b c d e f)
      | _, _, _, _, _, _ =>
          ParseFailure (FieldErrors
            (issue "rut" r_rut ++ issue "full_name" r_full_name ++
             issue "email" r_email ++ issue "amount" r_amount ++
             issue "term_months" r_term_months ++ issue "income" r_income)%list)
      end
  | _ => ParseFailure FormErrors
  end.

End Schema.

(** *** The [loan_requests] table *)

(** One row; [created_at] and [updated_at] are left out. *)
Record Row : Type := mkRow {
  id : Z;
  row_rut : string;
  row_full_name : string;
  row_email : string;
  row_amount : Q;
  row_term_months : Z;
  row_income : option Q;
  status : string;
  scoring : option Z
}.

(** The table with its [SERIAL] counter; the database is [None] until
    [CREATE TABLE] has run. *)
Record Table : Type := mkTable {
  rows : list Row;
  next_id : Z
}.

Definition Db : Type := option Table.

(** A value bound to a [VARCHAR(12)] column: longer text is an error. *)
Definition varchar (n : nat) (s : string) : option string :=
  if (String.length s <=? n)%nat then Some s else None.

(** A value bound to a [NUMERIC(14,2)] column: rounded to two decimals,
    a tie going away from zero; twelve or more integer digits are an
    overflow error. *)
Definition numeric_14_2 (q : Q) : option Q :=
  let cents :=
    if Qle_bool 0 q then Qround_half_up (q * 100)
    else (- Qround_half_up (- q * 100))%Z in
  if (Z.abs cents <? 10 ^ 14)%Z then Some (inject_Z cents / 100) else None.

(** A value bound to an [INT] column: an integer of 32 bits, anything
    else is an error. *)
Definition int4 (x : jsnum) : option Z :=
  match x with
  | Fin q =>
      if Qis_int q && (- 2 ^ 31 <=? Qfloor q)%Z && (Qfloor q <? 2 ^ 31)%Z
      then Some (Qfloor q) else None
  | _ => None
  end.

(** *** The route's effects *)

(** What a run leaves in the log: the queries sent and the calls of the
    two rules. *)
Inductive Event : Type :=
| QueryEnsureTables
| QueryInsert
| QueryUpdate
| CallIsAdmissible
| CallComputeScore.

(** The world a request runs in: the database, the outcome of the
    queries to come ([true]: the query fails, as when the connection is
    lost) and the log. *)
Record World : Type := mkWorld {
  db : Db;
  faults : list bool;
  trace : list Event
}.

Inductive outcome (A : Type) : Type :=
| Ok (a : A)
| Thrown.
Arguments Ok {A} a.
Arguments Thrown {A}.

Definition M (A : Type) : Type := World -> outcome A * World.

Definition ret {A : Type} (a : A) : M A := fun w => (Ok a, w).

Definition throw {A : Type} : M A := fun w => (Thrown, w).

Definition bind {A B : Type} (m : M A) (k : A -> M B) : M B :=
  fun w => match m w with
           | (Ok a, w') => k a w'
           | (Thrown, w') => (Thrown, w')
           end.

Notation "x <- m ;; k" := (bind m (fun x => k))
  (at level 61, m at next level, right associativity).
Notation "m ;;; k" := (bind m (fun _ => k))
  (at level 61, right associativity).

Definition log (e : Event) : M unit :=
  fun w => (Ok tt, mkWorld (db w) (faults w) (trace w ++ [e])%list).

(** [await pool.query(...)]: the query is logged; it fails when the world
    says so or when the statement is in error, and the database is then
    left as it was. *)
Definition pool_query {A : Type} (e : Event) (q : Db -> option (A * Db)) : M A :=
  fun w =>
    let t := (trace w ++ [e])%list in
    match faults w with
    | true :: fs => (Thrown, mkWorld (db w) fs t)
    | fs =>
        match q (db w) with
        | Some (a, d) => (Ok a, mkWorld d (tl fs) t)
        | None => (Thrown, mkWorld (db w) (tl fs) t)
        end
    end.

(** [CREATE TABLE IF NOT EXISTS loan_requests (...)]: an empty table
    whose [SERIAL] counter starts at 1, unless the table is there. *)
Definition create_table_if_not_exists (d : Db) : Db :=
  match d with
  | None => Some (mkTable [] 1)
  | Some t => Some t
  end.

(** [ensureTables()] *)
Definition ensureTables : M unit :=
  pool_query QueryEnsureTables (fun d => Some (tt, create_table_if_not_exists d)).

(** [INSERT INTO loan_requests (...) VALUES ($1,...,$6,'pendiente')
    RETURNING *] *)
Definition insert_request (p : Payload) (d : Db) : option (list Row * Db) :=
  match d with
  | None => None
  | Some t =>
      match varchar 12 (rut p), numeric_14_2 (amount p), int4 (Fin (term_months p)) with
      | Some r, Some a, Some tm =>
          let inc := match income p with
                     | Some i => option_map Some (numeric_14_2 i)
                     | None => Some None
                     end in
          match inc with
          | Some i =>
              if Qis_pos a && (0 <? tm)%Z then
                let row := mkRow (next_id t) r (full_name p) (email p) a tm i
                                 "pendiente" None in
                Some ([row], Some (mkTable (rows t ++ [row])%list (next_id t + 1)))
              else None
          | None => None
          end
      | _, _, _ => None
      end
  end.

(** [UPDATE loan_requests SET status=$1, scoring=$2 WHERE id=$3
    RETURNING id, status, scoring] *)
Definition set_result (st : string) (sc : option Z) (i : Z) (r : Row) : Row :=
  if (id r =? i)%Z
  then mkRow (id r) (row_rut r) (row_full_name r) (row_email r) (row_amount r)
             (row_term_months r) (row_income r) st sc
  else r.

Definition update_request (st : string) (sc : option jsnum) (i : Z) (d : Db)
  : option (list Row * Db) :=
  match d with
  | None => None
  | Some t =>
      let sc' := match sc with
                 | Some s => option_map Some (int4 s)
                 | None => Some None
                 end in
      match sc' with
      | Some v =>
          if (String.length st <=? 20)%nat then
            let rs := map (set_result st v i) (rows t) in
            Some (filter (fun r => (id r =? i)%Z) rs, Some (mkTable rs (next_id t)))
          else None
      | None => None
      end
  end.

(** [xs[0].f]: reading a property of [undefined] throws. *)
Definition first {A : Type} (xs : list A) : M A :=
  match xs with
  | x :: _ => ret x
  | [] => throw
  end.

(** What [res.status(c).json(b)] sends: [{ error: "invalid_payload",
    details }], [{ error: "internal_error" }], or another document. *)
Inductive ResBody : Type :=
| InvalidPayload (details : FlatError)
| InternalError
| Document (v : jsval).

Record Response : Type := mkResponse {
  http_status : Z;
  json : ResBody
}.

Definition as_income (p : Payload) : option jsnum := option_map Fin (income p).

(** Lines 70 to 76 of the route: the decision. *)
Definition decide (p : Payload) : M (string * option jsnum) :=
  let status := "inadmisible"%string in
  let scoring := @None jsnum in
  log CallIsAdmissible ;;;
  if isAdmissible (as_income p) (Fin (amount p)) then
    log CallComputeScore ;;;
    let scoring := computeScore (as_income p) (Fin (amount p)) (Some (Fin (term_months p))) in
    let status := if js_ge scoring (num 55) then "aprobada"%string else "rechazada"%string in
    ret (status, Some scoring)
  else ret (status, scoring).

Definition json_of_scoring (s : option Z) : jsval :=
  match s with Some z => VNum (inject_Z z) | None => VNull end.

Section Routes.

Variable is_email : string -> bool.

(** The body of the [try] block of [POST /loans/apply]. *)
Definition apply_try (body : jsval) : M Response :=
  ensureTables ;;;
  match safeParse is_email body with
  | ParseFailure err =>
      ret (mkResponse 400 (InvalidPayload err))
  | ParseSuccess payload =>
      rows <- pool_query QueryInsert (insert_request payload) ;;
      let reqRow := hd_error rows in
      d <- decide payload ;;
      let '(st, sc) := d in
      rid <- match reqRow with Some r => ret (id r) | None => throw end ;;
      updated <- pool_query QueryUpdate (update_request st sc rid) ;;
      u <- first updated ;;
      ret (mkResponse 201 (Document (VObj [("id", VNum (inject_Z rid));
                                           ("status", VStr (status u));
                                           ("scoring", json_of_scoring (scoring u))])))
  end.

(** [router.post("/apply", ...)]: the [catch] answers 500. *)
Definition post_apply (body : jsval) (w : World) : Response * World :=
  match apply_try body w with
  | (Ok r, w') => (r, w')
  | (Thrown, w') => (mkResponse 500 InternalError, w')
  end.

End Routes.

(** *** The read-only routes *)

(** [await pool.query(...)] for a statement that only reads: it fails
    when the world says so or when the statement is in error. *)
Definition pool_query_read {A : Type} (q : Db -> option A) : M A :=
  fun w =>
    match faults w with
    | true :: fs => (Thrown, mkWorld (db w) fs (trace w))
    | fs =>
        match q (db w) with
        | Some a => (Ok a, mkWorld (db w) (tl fs) (trace w))
        | None => (Thrown, mkWorld (db w) (tl fs) (trace w))
        end
    end.

(** The row as [SELECT id, status, scoring, updated_at] returns it
    ([updated_at] is left out with its column). *)
Definition json_of_row (r : Row) : jsval :=
  VObj [("id", VNum (inject_Z (id r))); ("status", VStr (status r));
        ("scoring", json_of_scoring (scoring r))].

Section StatusRoute.

(** How PostgreSQL reads the text of [req.params.id] as an [INT];
    [None] when the text is no integer, which is an error of the
    statement. *)
Variable int4in : string -> option Z.

(** [SELECT id, status, scoring, updated_at FROM loan_requests
    WHERE id = $1] *)
Definition select_status (id_param : string) (d : Db) : option (list Row) :=
  match d with
  | None => None
  | Some t =>
      match int4in id_param with
      | Some i => Some (filter (fun r => (id r =? i)%Z) (rows t))
      | None => None
      end
  end.

(** The body of the [try] block of [GET /loans/:id/status]. *)
Definition status_try (id_param : string) : M Response :=
  ensureTables ;;;
  rows <- pool_query_read (select_status id_param) ;;
  match rows with
  | [] => ret (mkResponse 404 (Document (VObj [("error", VStr "not_found")])))
  | r :: _ => ret (mkResponse 200 (Document (json_of_row r)))
  end.

(** [router.get("/:id/status", ...)] *)
Definition get_status (id_param : string) (w : World) : Response * World :=
  match status_try id_param w with
  | (Ok r, w') => (r, w')
  | (Thrown, w') => (mkResponse 500 InternalError, w')
  end.

End StatusRoute.

End Server.

(** ** The request form of the client ([LoanRequestView]) *)

Module View.

Import Server.
Local Open Scope string_scope.

(** [data]: the texts of the inputs and the checkbox. *)
Record Data : Type := mkData {
  data_rut : string;
  data_fullName : string;
  data_email : string;
  data_phone : string;
  data_income : string;
  data_amount : string;
  data_term : string;
  data_accept : bool
}.

(** The state of the component; [ui_inflight] is the body of the request
    that [handleSubmitReal] is awaiting, if any. *)
Record UI : Type := mkUI {
  ui_step : Z;
  ui_submitting : bool;
  ui_createdId : option string;
  ui_status : jsval;
  ui_score : jsval;
  ui_data : Data;
  ui_inflight : option jsval
}.

(** The first render. *)
Definition initial : UI :=
  mkUI 1 false None VNull VNull (mkData "" "" "" "" "" "" "24" false) None.

(** A text is truthy when it is not empty. *)
Definition nonempty (s : string) : bool :=
  match s with EmptyString => false | _ => true end.

(** [JSON.stringify] of a number: [null] unless it is finite. *)
Definition json_of_number (x : jsnum) : jsval :=
  match x with Fin q => VNum q | _ => VNull end.

(** [x ?? null] *)
Definition or_null (v : jsval) : jsval :=
  match v with VUndef | VNull => VNull | _ => v end.

(** [res.ok] *)
Definition ok (r : Response) : bool :=
  (200 <=? http_status r)%Z && (http_status r <=? 299)%Z.

Section Builtins.

(** [String.prototype.trim], [Number] on a text, the test of
    [/.+@.+\..+/] and [String] on a value are JavaScript's. *)
Variable trim : string -> string.
Variable Number : string -> jsnum.
Variable email_shape : string -> bool.
Variable String_of : jsval -> string.

Definition canNext1 (d : Data) : bool :=
  nonempty (trim (data_rut d)) && nonempty (trim (data_fullName d))
  && email_shape (data_email d) && nonempty (trim (data_phone d))
  && js_lt (num 0) (Number (data_income d)).

Definition canNext2 (d : Data) : bool :=
  js_lt (num 0) (Number (data_amount d)) && js_lt (num 0) (Number (data_term d)).

(** The [disabled] attributes of the three buttons. *)
Definition back_disabled (u : UI) : bool := (ui_step u =? 1)%Z.

Definition next_disabled (u : UI) : bool :=
  ((ui_step u =? 1)%Z && (negb (canNext1 (ui_data u)) || negb (data_accept (ui_data u))))
  || ((ui_step u =? 2)%Z && negb (canNext2 (ui_data u))).

Definition submit_disabled (u : UI) : bool :=
  negb (data_accept (ui_data u)) || ui_submitting u.

Definition set_step (f : Z -> Z) (u : UI) : UI :=
  mkUI (f (ui_step u)) (ui_submitting u) (ui_createdId u) (ui_status u)
       (ui_score u) (ui_data u) (ui_inflight u).

Definition set_data (d : Data) (u : UI) : UI :=
  mkUI (ui_step u) (ui_submitting u) (ui_createdId u) (ui_status u)
       (ui_score u) d (ui_inflight u).

(** [setStep((s) => (s > 1 ? s - 1 : s))] and
    [setStep((s) => (s < 3 ? s + 1 : s))] *)
Definition on_back (u : UI) : UI :=
  set_step (fun s => if (1 <? s)%Z then (s - 1)%Z else s) u.

Definition on_next (u : UI) : UI :=
  set_step (fun s => if (s <? 3)%Z then (s + 1)%Z else s) u.

(** The body [createLoan] sends for the payload of [handleSubmitReal]. *)
Definition request_body (d : Data) : jsval :=
  VObj [("rut", VStr (trim (data_rut d)));
        ("full_name", VStr (trim (data_fullName d)));
        ("email", VStr (trim (data_email d)));
        ("amount", json_of_number (Number (data_amount d)));
        ("term_months", json_of_number (Number (data_term d)));
        ("income", json_of_number (Number (data_income d)))].

(** [handleSubmitReal] up to its [await]. *)
Definition on_submit (u : UI) : UI :=
  mkUI (ui_step u) true (ui_createdId u) (ui_status u) (ui_score u) (ui_data u)
       (Some (request_body (ui_data u))).

(** [handleSubmitReal] when the request fails or the answer is not
    [ok]: the error is caught and logged. *)
Definition on_failure (u : UI) : UI :=
  mkUI (ui_step u) false (ui_createdId u) (ui_status u) (ui_score u) (ui_data u) None.

(** [applied.k] for the document [res.json()] resolves to: [None] when
    reading a property of [null] throws; the error documents of the
    server have none of the keys read here. *)
Definition applied_field (b : ResBody) (k : string) : option jsval :=
  match b with
  | Document VNull | Document VUndef => None
  | Document (VObj fields) => Some (get_field k fields)
  | Document _ | InvalidPayload _ | InternalError => Some VUndef
  end.

(** [handleSubmitReal] from its [await] on, given the answer. *)
Definition on_response (r : Response) (u : UI) : UI :=
  if ok r then
    match applied_field (json r) "id", applied_field (json r) "status",
          applied_field (json r) "scoring" with
    | Some i, Some st, Some sc =>
        mkUI (ui_step u) false (Some (String_of i)) st (or_null sc) (ui_data u) None
    | _, _, _ => on_failure u
    end
  else on_failure u.

Variable is_email : string -> bool.

(** What can happen to the form: an input that is on screen changes, an
    enabled button is clicked, or the awaited request ends, answered by
    the server in some state or not at all. *)
Inductive ui_step_to (u : UI) : UI -> Prop :=
| EditPersonal (rut fullName email phone income : string) (accept : bool) :
    ui_step u = 1%Z ->
    ui_step_to u (set_data (mkData rut fullName email phone income
                                   (data_amount (ui_data u)) (data_term (ui_data u))
                                   accept) u)
| EditLoan (amount term : string) :
    ui_step u = 2%Z ->
    ui_step_to u (set_data (mkData (data_rut (ui_data u)) (data_fullName (ui_data u))
                                   (data_email (ui_data u)) (data_phone (ui_data u))
                                   (data_income (ui_data u)) amount term
                                   (data_accept (ui_data u))) u)
| ClickBack :
    back_disabled u = false ->
    ui_step_to u (on_back u)
| ClickNext :
    (ui_step u <? 3)%Z = true -> next_disabled u = false ->
    ui_step_to u (on_next u)
| ClickSubmit :
    (ui_step u <? 3)%Z = false -> submit_disabled u = false ->
    ui_step_to u (on_submit u)
| Answered (body : jsval) (w : World) :
    ui_inflight u = Some body ->
    ui_step_to u (on_response (fst (post_apply is_email body w)) u)
| NotAnswered (body : jsval) :
    ui_inflight u = Some body ->
    ui_step_to u (on_failure u).

Inductive ui_reachable : UI -> Prop :=
| ui_reachable_initial : ui_reachable initial
| ui_reachable_step (u u' : UI) :
    ui_reachable u -> ui_step_to u u' -> ui_reachable u'.

(** What holds of the form at every moment: the step is one of the
    three; past the first step the personal data passed [canNext1] and
    the terms are accepted; on the last step the loan data passed
    [canNext2]; [submitting] is on exactly while a request is awaited,
    and that request was built from data that passed both tests. *)
Definition ui_invariant (u : UI) : Prop :=
  (1 <= ui_step u <= 3)%Z
  /\ ((2 <= ui_step u)%Z ->
      canNext1 (ui_data u) = true /\ data_accept (ui_data u) = true)
  /\ (ui_step u = 3%Z -> canNext2 (ui_data u) = true)
  /\ (ui_submitting u = true <-> ui_inflight u <> None)
  /\ (forall body, ui_inflight u = Some body ->
        exists d, body = request_body d
                  /\ canNext1 d = true /\ canNext2 d = true /\ data_accept d = true).

End Builtins.

(** Builtins for concrete runs.  They agree with JavaScript on the texts
    used below: [trim] on a text without blanks at its ends, [Number] on
    the empty text and on decimal digits, [String] on an integer, a
    text, [null], [undefined] and the booleans. *)
Definition sample_trim (s : string) : string := s.

Fixpoint digits (s : string) (acc : Z) : option Z :=
  match s with
  | EmptyString => Some acc
  | String c rest =>
      let n := Z.of_nat (nat_of_ascii c) in
      if (48 <=? n)%Z && (n <=? 57)%Z then digits rest (10 * acc + (n - 48))%Z
      else None
  end.

Definition sample_Number (s : string) : jsnum :=
  match digits s 0 with Some z => num z | None => NaN end.

Definition sample_String (v : jsval) : string :=
  match v with
  | VStr s => s
  | VNum q => NilZero.string_of_int (Z.to_int (Qfloor q))
  | VNull => "null"
  | VBool true => "true"
  | VBool false => "false"
  | _ => "undefined"
  end.

(** A run of the form: the personal data is typed and the terms
    accepted, "Siguiente", the loan data is typed, "Siguiente", "Enviar
    solicitud", and the answer of a server that starts without a
    table: scenario A. *)
Definition sample_personal (u : UI) : UI :=
  set_data (mkData "11.111.111-1" "Ana Rojas" "ana@example.cl" "+56 9 1234 5678"
                   "1000000" (data_amount (ui_data u)) (data_term (ui_data u)) true) u.

Definition sample_loan (u : UI) : UI :=
  set_data (mkData (data_rut (ui_data u)) (data_fullName (ui_data u))
                   (data_email (ui_data u)) (data_phone (ui_data u))
                   (data_income (ui_data u)) "1500000" "24"
                   (data_accept (ui_data u))) u.

Definition sample_submitted : UI :=
  on_submit sample_trim sample_Number
    (on_next (sample_loan (on_next (sample_personal initial)))).

Definition sample_request : jsval :=
  request_body sample_trim sample_Number (ui_data sample_submitted).

Definition sample_answered (is_email : string -> bool) : UI :=
  on_response sample_String
    (fst (post_apply is_email sample_request (mkWorld None [] []))) sample_submitted.

End View.

(** ** What the specification says, in its own words *)

Module Spec.

(** Section 4.2: [base] "rounded to nearest integer, then clamped to the
    closed interval [1, 100]". *)
Definition score_base (income amount term : Q) : Q :=
  60 + income / (amount / term).

Definition clamp_int (lo hi z : Z) : Z := Z.max lo (Z.min hi z).

Definition round_then_clamp (base : Q) : Z :=
  clamp_int 1 100 (Qround_half_up base).

Import Server.
Local Open Scope string_scope.

(** Section 4.3, steps 2 to 4: the status and the score a payload is
    given. *)
Definition decision_rule (p : Payload) (st : string) (sc : option jsnum) : Prop :=
  if isAdmissible (as_income p) (Fin (amount p))
  then exists s : Z,
         computeScore (as_income p) (Fin (amount p)) (Some (Fin (term_months p))) = num s
         /\ sc = Some (num s)
         /\ (1 <= s <= 100)%Z
         /\ ((55 <= s)%Z -> st = "aprobada")
         /\ ((s < 55)%Z -> st = "rechazada")
  else st = "inadmisible" /\ sc = None.

(** Section 3: the score is set exactly on the rows that were rejected
    or approved, and is then an integer of [1..100]. *)
Definition row_invariant (r : Row) : Prop :=
  (status r = "pendiente" /\ scoring r = None)
  \/ (status r = "inadmisible" /\ scoring r = None)
  \/ ((status r = "rechazada" \/ status r = "aprobada")
      /\ exists s : Z, scoring r = Some s /\ (1 <= s <= 100)%Z).

End Spec.

(** ** Runs of the route *)

Module Runs.

Import Server Spec.
Local Open Scope string_scope.

(** The rows of the table, none while there is no table. *)
Definition table_rows (d : Db) : list Row :=
  match d with Some t => rows t | None => [] end.

Definition db_invariant (d : Db) : Prop := Forall row_invariant (table_rows d).

(** None of the next [n] queries fails. *)
Definition no_fault (n : nat) (w : World) : Prop :=
  forallb negb (firstn n (faults w)) = true.

(** The databases the route can produce, from the one without a table,
    under any bodies and any failures of queries. *)
Inductive reachable (is_email : string -> bool) : Db -> Prop :=
| reachable_init : reachable is_email None
| reachable_post (w : World) (body : jsval) :
    reachable is_email (db w) ->
    reachable is_email (db (snd (post_apply is_email body w))).

(** The five ways a request to [POST /loans/apply] can go: the first
    query fails; the body is refused; the [INSERT] fails; the row is
    registered but its decision is not written; the decision is written
    and answered. *)
Inductive Run (is_email : string -> bool) (body : jsval) (w : World)
  : Response -> World -> Prop :=
| RunEnsureFailed (fs : list bool) :
    faults w = true :: fs ->
    Run is_email body w (mkResponse 500 InternalError)
        (mkWorld (db w) fs (trace w ++ [QueryEnsureTables]))
| RunInvalid (err : FlatError) :
    hd false (faults w) = false ->
    safeParse is_email body = ParseFailure err ->
    Run is_email body w (mkResponse 400 (InvalidPayload err))
        (mkWorld (create_table_if_not_exists (db w)) (tl (faults w)) (trace w ++ [QueryEnsureTables]))
| RunInsertFailed (p : Payload) (fs : list bool) :
    hd false (faults w) = false ->
    safeParse is_email body = ParseSuccess p ->
    hd false (tl (faults w)) = true
    \/ insert_request p (create_table_if_not_exists (db w)) = None ->
    Run is_email body w (mkResponse 500 InternalError)
        (mkWorld (create_table_if_not_exists (db w)) fs
                 (trace w ++ [QueryEnsureTables; QueryInsert]))
| RunUpdateFailed (p : Payload) (row : Row) (rs : list Row) (d2 : Db)
                  (st : string) (sc : option jsnum) (fs : list bool)
                  (tr : list Event) :
    safeParse is_email body = ParseSuccess p ->
    insert_request p (create_table_if_not_exists (db w)) = Some (row :: rs, d2) ->
    decision_rule p st sc ->
    hd false (tl (tl (faults w))) = true
    \/ update_request st sc (id row) d2 = None ->
    Run is_email body w (mkResponse 500 InternalError) (mkWorld d2 fs tr)
| RunDecided (p : Payload) (row : Row) (rs : list Row) (d2 d3 : Db)
             (st : string) (sc : option jsnum) (u : Row) (us : list Row)
             (tr : list Event) :
    no_fault 3 w ->
    safeParse is_email body = ParseSuccess p ->
    insert_request p (create_table_if_not_exists (db w)) = Some (row :: rs, d2) ->
    decision_rule p st sc ->
    update_request st sc (id row) d2 = Some (u :: us, d3) ->
    Run is_email body w
        (mkResponse 201
           (Document (VObj [("id", VNum (inject_Z (id row)));
                            ("status", VStr (status u));
                            ("scoring", json_of_scoring (scoring u))])))
        (mkWorld d3 (tl (tl (tl (faults w)))) tr).

(** The identifiers of a table: positive, below the [SERIAL] counter and
    pairwise distinct. *)
Definition table_wf (t : Table) : Prop :=
  (1 <= next_id t)%Z
  /\ Forall (fun r => (1 <= id r < next_id t)%Z) (rows t)
  /\ NoDup (map id (rows t)).

Definition db_wf (d : Db) : Prop :=
  match d with
  | Some t => table_wf t
  | None => True
  end.

(** A text that does not fit [n] characters even with its blanks cut:
    one of its characters past the first [n] is not a space.  (A text
    whose excess is all spaces is cut to fit by PostgreSQL.) *)
Fixpoint all_spaces (s : string) : bool :=
  match s with
  | EmptyString => true
  | String c rest => Ascii.eqb c " "%char && all_spaces rest
  end.

Definition overlong (n : nat) (s : string) : bool :=
  (n <? String.length s)%nat
  && negb (all_spaces (substring n (String.length s - n) s)).

(** The events a request adds to the log: the first query alone; the
    first query and the [INSERT]; or both, the call of [isAdmissible],
    the call of [computeScore] when [adm] holds, and the [UPDATE]. *)
Definition events_of_run (evs : list Event) (adm : option bool) : Prop :=
  match adm with
  | None => evs = [QueryEnsureTables] \/ evs = [QueryEnsureTables; QueryInsert]
  | Some true =>
      evs = [QueryEnsureTables; QueryInsert; CallIsAdmissible; CallComputeScore;
             QueryUpdate]
  | Some false =>
      evs = [QueryEnsureTables; QueryInsert; CallIsAdmissible; QueryUpdate]
  end.

End Runs.

(** ** Concrete requests *)

Module Sample.

Import Server.
Local Open Scope string_scope.

(** An address test for the runs below: something on each side of an
    [@]. *)
Fixpoint has_at (s : string) : bool :=
  match s with
  | EmptyString => false
  | String c rest => if Ascii.eqb c "@"%char then true else has_at rest
  end.

Definition sample_is_email (s : string) : bool :=
  match s with
  | EmptyString => false
  | String c rest => negb (Ascii.eqb c "@"%char) && has_at rest
  end.

Definition sample_fields (more : list (string * jsval)) : list (string * jsval) :=
  ([("rut", VStr "11.111.111-1"); ("full_name", VStr "Ana Rojas");
    ("email", VStr "ana@example.cl"); ("amount", VNum 500000);
    ("term_months", VNum 12)] ++ more)%list.

Definition sample_body (more : list (string * jsval)) : jsval :=
  VObj (sample_fields more).

(** Scenario C of the specification, with the income absent and with an
    income of 0. *)
Definition body_income_absent : jsval := sample_body [].
Definition body_income_zero : jsval := sample_body [("income", VNum 0)].

(** Scenario A: income 1000000, amount 1500000, 24 months. *)
Definition body_scenario_A : jsval :=
  VObj [("rut", VStr "11.111.111-1"); ("full_name", VStr "Ana Rojas");
        ("email", VStr "ana@example.cl"); ("amount", VNum 1500000);
        ("term_months", VNum 24); ("income", VNum 1000000)].

(** A fresh world: no table yet, no query fails. *)
Definition fresh : World := mkWorld None [] [].

(** A world whose first query fails. *)
Definition database_down : World := mkWorld None [true] [].

(** The row scenario A leaves in a fresh database. *)
Definition row_scenario_A : Row :=
  mkRow 1 "11.111.111-1" "Ana Rojas" "ana@example.cl" (150000000 # 100) 24
        (Some (100000000 # 100)) "aprobada" (Some 76%Z).

(** A reader of identifiers for the runs below: the texts ["1"] to
    ["9"]. *)
Definition sample_int4in (s : string) : option Z :=
  match s with
  | String c EmptyString =>
      let n := Z.of_nat (nat_of_ascii c) in
      if (49 <=? n)%Z && (n <=? 57)%Z then Some (n - 48)%Z else None
  | _ => None
  end.

End Sample.

(** ** Facts about the number model *)

Section NumberFacts.

Lemma Qis_zero_true (q : Q) : Qis_zero q = true <-> q == 0.
Proof. apply Qeq_bool_iff. Qed.

Lemma Qis_zero_false (q : Q) : Qis_zero q = false <-> ~ q == 0.
Proof.
  unfold Qis_zero. split; intro H.
  - intro E. apply Qeq_bool_iff in E. congruence.
  - destruct (Qeq_bool q 0) eqn:E; [apply Qeq_bool_iff in E; tauto | reflexivity].
Qed.

Lemma Qis_pos_true (q : Q) : Qis_pos q = true <-> 0 < q.
Proof.
  unfold Qis_pos. destruct (Qle_bool q 0) eqn:E; simpl.
  - apply Qle_bool_iff in E. split; [discriminate | intro H; lra].
  - split; [intros _ | reflexivity].
    apply Qnot_le_lt. intro H. apply Qle_bool_iff in H. congruence.
Qed.

Lemma Qis_pos_false (q : Q) : Qis_pos q = false <-> q <= 0.
Proof.
  unfold Qis_pos. destruct (Qle_bool q 0) eqn:E; simpl.
  - apply Qle_bool_iff in E. tauto.
  - split; [discriminate | intro H; apply Qle_bool_iff in H; congruence].
Qed.

Lemma Qle_bool_false (a b : Q) : Qle_bool a b = false <-> b < a.
Proof.
  destruct (Qle_bool a b) eqn:E.
  - apply Qle_bool_iff in E. split; [discriminate | intro H; lra].
  - split; [intros _ | reflexivity].
    apply Qnot_le_lt. intro H. apply Qle_bool_iff in H. congruence.
Qed.

Lemma Qround_half_up_Z (z : Z) : Qround_half_up (inject_Z z) = z.
Proof.
  unfold Qround_half_up.
  assert (Hlo : (z <= Qfloor (inject_Z z + (1 # 2)))%Z).
  { rewrite <- (Qfloor_Z z) at 1. apply Qfloor_resp_le. lra. }
  assert (Hhi : (Qfloor (inject_Z z + (1 # 2)) < z + 1)%Z).
  { rewrite Zlt_Qlt. eapply Qle_lt_trans; [apply Qfloor_le|].
    rewrite inject_Z_plus. change (inject_Z 1) with 1. lra. }
  lia.
Qed.

Lemma Qround_half_up_mono (a b : Q) :
  a <= b -> (Qround_half_up a <= Qround_half_up b)%Z.
Proof. intro H. apply Qfloor_resp_le. lra. Qed.

Lemma Qround_half_up_comp (a b : Q) : a == b -> Qround_half_up a = Qround_half_up b.
Proof. intro H. unfold Qround_half_up. now rewrite H. Qed.

(** Rounding after clamping: on a finite number the server's
    [Math.round(Math.max(1, Math.min(100, base)))] is the clamped
    rounding. *)
Lemma round_of_clamp (q : Q) :
  Math_round (Math_max (num 1) (Math_min (num 100) (Fin q)))
  = num (Spec.round_then_clamp q).
Proof.
  unfold Spec.round_then_clamp, Spec.clamp_int, num. simpl.
  destruct (Qle_bool (inject_Z 100) q) eqn:H100.
  - apply Qle_bool_iff in H100.
    pose proof (Qround_half_up_mono _ _ H100) as M.
    rewrite Qround_half_up_Z in M.
    simpl. f_equal. f_equal. change (Qround_half_up (inject_Z 100)) with 100%Z. lia.
  - apply Qle_bool_false in H100.
    destruct (Qle_bool (inject_Z 1) q) eqn:H1.
    + apply Qle_bool_iff in H1. simpl.
      pose proof (Qround_half_up_mono _ _ H1) as M1.
      pose proof (Qround_half_up_mono _ _ (Qlt_le_weak _ _ H100)) as M2.
      rewrite Qround_half_up_Z in M1, M2.
      f_equal. f_equal. lia.
    + apply Qle_bool_false in H1. simpl.
      pose proof (Qround_half_up_mono _ _ (Qlt_le_weak _ _ H1)) as M1.
      rewrite Qround_half_up_Z in M1.
      f_equal. f_equal. change (Qround_half_up (inject_Z 1)) with 1%Z. lia.
Qed.

(** Clamping after rounding, the client's order. *)
Lemma clamp_of_round (q : Q) :
  Client.clamp (Math_round (Fin q)) (num 1) (num 100)
  = num (Spec.round_then_clamp q).
Proof.
  unfold Client.clamp, Spec.round_then_clamp, Spec.clamp_int, num. simpl.
  set (r := Qround_half_up q).
  destruct (Qle_bool (inject_Z 1) (inject_Z r)) eqn:H1.
  - apply Qle_bool_iff in H1. rewrite <- Zle_Qle in H1.
    destruct (Qle_bool (inject_Z 100) (inject_Z r)) eqn:H100.
    + apply Qle_bool_iff in H100. rewrite <- Zle_Qle in H100.
      f_equal. f_equal. lia.
    + apply Qle_bool_false in H100. rewrite <- Zlt_Qlt in H100.
      f_equal. f_equal. lia.
  - apply Qle_bool_false in H1. rewrite <- Zlt_Qlt in H1.
    simpl. f_equal. f_equal. lia.
Qed.

Lemma round_then_clamp_range (q : Q) : (1 <= Spec.round_then_clamp q <= 100)%Z.
Proof. unfold Spec.round_then_clamp, Spec.clamp_int. lia. Qed.

(** The server's clamp maps every number but [NaN] to an integer of
    [1..100]. *)
Lemma round_of_clamp_range (x : jsnum) :
  x <> NaN ->
  exists s : Z,
    Math_round (Math_max (num 1) (Math_min (num 100) x)) = num s /\ (1 <= s <= 100)%Z.
Proof.
  intro Hx. destruct x as [q | | |].
  - exists (Spec.round_then_clamp q). split; [apply round_of_clamp | apply round_then_clamp_range].
  - exists 100%Z. split; [reflexivity | lia].
  - exists 1%Z. split; [reflexivity | lia].
  - congruence.
Qed.

(** The quotient [amount / term] of two positive numbers is finite and
    positive, and so is the base of the score. *)
Lemma base_finite (i a t : Q) :
  0 < a -> 0 < t ->
  js_add (num 60) (js_div (Fin i) (js_div (Fin a) (Fin t)))
  = Fin (Spec.score_base i a t).
Proof.
  intros Ha Ht. unfold Spec.score_base, num. simpl.
  assert (Zt : Qis_zero t = false) by (apply Qis_zero_false; lra).
  rewrite Zt.
  assert (Hq : 0 < a / t) by (apply Qlt_shift_div_l; lra).
  assert (Zq : Qis_zero (a / t) = false) by (apply Qis_zero_false; lra).
  rewrite Zq. reflexivity.
Qed.

Lemma js_or_pos (t : Q) (d : jsnum) : 0 < t -> js_or (Fin t) d = Fin t.
Proof.
  intro Ht. unfold js_or. simpl.
  assert (Zt : Qis_zero t = false) by (apply Qis_zero_false; lra).
  now rewrite Zt.
Qed.

End NumberFacts.

(** The two copies of the score on finite positive [amount] and [term]. *)
Lemma server_score_finite (i a t : Q) :
  0 < a -> 0 < t ->
  Server.computeScore (Some (Fin i)) (Fin a) (Some (Fin t))
  = num (Spec.round_then_clamp (Spec.score_base i a t)).
Proof.
  intros Ha Ht. unfold Server.computeScore.
  rewrite (js_or_pos t _ Ht), (base_finite i a t Ha Ht).
  apply round_of_clamp.
Qed.


(** ** The score and the admissibility rule *)







(** ** The monthly payment estimator *)

Lemma truthy_num (n : Z) : n <> 0%Z -> truthy (num n) = true.
Proof.
  intro Hn. simpl. apply negb_true_iff, Qis_zero_false.
  unfold Qeq. simpl. lia.
Qed.

(** C8 as stated fails at a zero month count: the guard answers 0,
    while the quotient [1 / 0] is [Infinity] and stays so under
    [Math.round]. *)
Lemma estimateMonthlyPayment_zero_months_not_quotient :
  Client.estimateMonthlyPayment (num 1) 0 (Some (num 0)) = num 0
  /\ Math_round (js_div (num 1) (num 0)) = PInf.
Proof. split; reflexivity. Qed.

(** C8, amended.  For every principal and every month count [n] other
    than zero, [estimateMonthlyPayment (principal, n, 0)] is
    [round (principal / n)]; with a zero principal the estimate is 0 at
    every month count and rate, and with a zero month count it is 0 at
    every principal and rate. *)
Theorem estimateMonthlyPayment_zero_rate :
  (forall (principal r : Q) (n : Z),
      n <> 0%Z -> r == 0 ->
      Client.estimateMonthlyPayment (Fin principal) n (Some (Fin r))
      = Math_round (js_div (Fin principal) (num n)))
  /\ (forall (z : Q) (n : Z) (rate : option jsnum),
        z == 0 -> Client.estimateMonthlyPayment (Fin z) n rate = num 0)
  /\ (forall (capital : jsnum) (rate : option jsnum),
        Client.estimateMonthlyPayment capital 0 rate = num 0).
Proof.
  split; [|split].
  - intros principal r n Hn Hr.
    unfold Client.estimateMonthlyPayment.
    rewrite (truthy_num n Hn).
    assert (E : js_strict_eq (Fin r) (num 0) = true) by (apply Qeq_bool_iff, Hr).
    rewrite E.
    destruct (truthy (Fin principal)) eqn:T; simpl negb; simpl orb; cbv iota;
      [reflexivity|].
    simpl in T. apply negb_false_iff, Qis_zero_true in T.
    assert (Zn : Qis_zero (inject_Z n) = false).
    { apply Qis_zero_false. unfold Qeq. simpl. lia. }
    unfold num. simpl. rewrite Zn. simpl. f_equal. f_equal.
    rewrite (Qround_half_up_comp (principal / inject_Z n) 0).
    + reflexivity.
    + rewrite T. unfold Qdiv. ring.
  - intros z n rate Hz. unfold Client.estimateMonthlyPayment.
    assert (T : truthy (Fin z) = false).
    { simpl. apply negb_false_iff, Qis_zero_true, Hz. }
    rewrite T. reflexivity.
  - intros capital rate. unfold Client.estimateMonthlyPayment.
    destruct (truthy capital); reflexivity.
Qed.

Lemma estimateMonthlyPayment_zero_rate_witness :
  Client.estimateMonthlyPayment (Fin 1500000) 24 (Some (Fin 0))
  = Math_round (js_div (Fin 1500000) (num 24))
  /\ Client.estimateMonthlyPayment (Fin 0) 24 None = num 0
  /\ Client.estimateMonthlyPayment (Fin 1500000) 0 None = num 0.
Proof.
  destruct estimateMonthlyPayment_zero_rate as [A [B C]].
  split; [|split].
  - apply (A 1500000 0 24%Z); [discriminate | reflexivity].
  - apply (B 0 24%Z None). reflexivity.
  - apply (C (Fin 1500000) None).
Defined.




(** ** The decision of the route *)

Section Decision.

Import Server Spec.
Local Open Scope string_scope.

(** Whatever the amount and the term, an admissible payload has an
    income other than zero, its base is not [NaN], and its score is an
    integer of [1..100]. *)
Lemma admissible_score_int (i : option Q) (a t : Q) :
  isAdmissible (option_map Fin i) (Fin a) = true ->
  exists s : Z,
    computeScore (option_map Fin i) (Fin a) (Some (Fin t)) = num s
    /\ (1 <= s <= 100)%Z.
Proof.
  destruct i as [q|]; [|discriminate].
  unfold isAdmissible. simpl option_map. cbv beta iota.
  destruct (truthy (Fin q)) eqn:T; [|discriminate]. intros _.
  simpl in T. apply negb_true_iff in T.
  unfold computeScore. apply round_of_clamp_range.
  assert (Ht : exists t', js_or (Fin t) (num 24) = Fin t' /\ Qis_zero t' = false).
  { unfold js_or. simpl. destruct (Qis_zero t) eqn:Zt; simpl.
    - exists (inject_Z 24). split; reflexivity.
    - exists t. split; [reflexivity | exact Zt]. }
  destruct Ht as [t' [-> Zt']].
  simpl js_div at 2. rewrite Zt'.
  unfold js_div, signed_inf. rewrite T.
  destruct (Qis_zero (a / t')); [destruct (Qis_pos q)|]; discriminate.
Qed.

Lemma js_ge_num (s k : Z) : js_ge (num s) (num k) = (k <=? s)%Z.
Proof.
  unfold js_ge, num. simpl.
  destruct (k <=? s)%Z eqn:E.
  - apply Qle_bool_iff. rewrite <- Zle_Qle. apply Z.leb_le, E.
  - apply Qle_bool_false. rewrite <- Zlt_Qlt. apply Z.leb_gt, E.
Qed.

(** The decision never throws, leaves the database alone, and logs the
    calls of the rules it makes. *)
Lemma decide_run (p : Payload) (w : World) :
  exists st sc,
    decide p w
    = (Ok (st, sc),
       mkWorld (db w) (faults w)
         (trace w ++ CallIsAdmissible ::
            (if isAdmissible (as_income p) (Fin (amount p))
             then [CallComputeScore] else [])))
    /\ decision_rule p st sc.
Proof.
  unfold decide, decision_rule, bind, log, ret. cbv beta iota.
  destruct (isAdmissible (as_income p) (Fin (amount p))) eqn:A.
  - destruct (admissible_score_int (income p) (amount p) (term_months p) A)
      as [s [Hs R]].
    unfold as_income. rewrite Hs, js_ge_num. cbn [db faults trace].
    rewrite <- app_assoc.
    eexists. eexists. split; [reflexivity|].
    exists s. repeat split; try lia.
    + intro H. apply Z.leb_le in H. now rewrite H.
    + intro H. apply Z.leb_gt in H. now rewrite H.
  - eexists. eexists. split; [reflexivity|]. split; reflexivity.
Qed.

(** C3.  The decision step assigns, to every payload it is given, the
    status [inadmisible] with no score when [isAdmissible] is false, and
    otherwise the score of [computeScore] with the status [aprobada] when
    the score is at least 55 (so at 55) and [rechazada] when it is below
    55 (so at 54). *)
Theorem decide_assigns_status (p : Payload) (w : World) :
  exists st sc w',
    decide p w = (Ok (st, sc), w')
    /\ db w' = db w
    /\ (isAdmissible (as_income p) (Fin (amount p)) = false ->
        st = "inadmisible" /\ sc = None)
    /\ (isAdmissible (as_income p) (Fin (amount p)) = true ->
        exists s : Z,
          computeScore (as_income p) (Fin (amount p)) (Some (Fin (term_months p)))
          = num s
          /\ sc = Some (num s)
          /\ ((55 <= s)%Z -> st = "aprobada")
          /\ ((s < 55)%Z -> st = "rechazada")
          /\ (s = 55%Z -> st = "aprobada")
          /\ (s = 54%Z -> st = "rechazada")).
Proof.
  destruct (decide_run p w) as [st [sc [E R]]].
  exists st, sc. eexists. split; [exact E|]. split; [reflexivity|].
  unfold decision_rule in R.
  destruct (isAdmissible (as_income p) (Fin (amount p))).
  - split; [discriminate|]. intros _.
    destruct R as [s [Hs [Hsc [_ [Hap Hre]]]]].
    exists s. repeat split; auto; intros ->; [apply Hap | apply Hre]; lia.
  - split; [intros _; exact R | discriminate].
Qed.

End Decision.

(** ** Runs of [POST /loans/apply] *)

Section RouteFacts.

Import Server Spec Runs.
Local Open Scope string_scope.

Variable is_email : string -> bool.

Lemma pool_query_fault {A : Type} (e : Event) (q : Db -> option (A * Db))
    (w : World) (fs : list bool) :
  faults w = true :: fs ->
  pool_query e q w = (Thrown, mkWorld (db w) fs (trace w ++ [e])).
Proof. intro F. unfold pool_query. rewrite F. reflexivity. Qed.

Lemma pool_query_sent {A : Type} (e : Event) (q : Db -> option (A * Db)) (w : World) :
  hd false (faults w) = false ->
  pool_query e q w
  = match q (db w) with
    | Some (a, d) => (Ok a, mkWorld d (tl (faults w)) (trace w ++ [e]))
    | None => (Thrown, mkWorld (db w) (tl (faults w)) (trace w ++ [e]))
    end.
Proof.
  intro F. unfold pool_query.
  destruct (faults w) as [|[|] fs]; [reflexivity | discriminate | reflexivity].
Qed.

Lemma hd_fault_cases (fs : list bool) :
  hd false fs = false \/ exists fs', fs = true :: fs'.
Proof. destruct fs as [|[|] fs']; eauto. Qed.

(** What [INSERT] returns and leaves. *)
Lemma insert_request_inv (p : Payload) (d : Db) (rs : list Row) (d2 : Db) :
  insert_request p d = Some (rs, d2) ->
  exists t row,
    d = Some t /\ rs = [row]
    /\ d2 = Some (mkTable (rows t ++ [row]) (next_id t + 1))
    /\ id row = next_id t /\ status row = "pendiente" /\ scoring row = None.
Proof.
  unfold insert_request. destruct d as [t|]; [|discriminate].
  destruct (varchar 12 (rut p)); [|discriminate].
  destruct (numeric_14_2 (amount p)); [|discriminate].
  destruct (int4 (Fin (term_months p))); [|discriminate].
  destruct (match income p with
            | Some i => option_map Some (numeric_14_2 i)
            | None => Some None
            end); [|discriminate].
  destruct (Qis_pos q && (0 <? z)%Z); [|discriminate].
  intro H. injection H as <- <-.
  eexists. eexists. repeat split.
Qed.

Lemma update_request_inv (st : string) (sc : option jsnum) (i : Z) (d : Db)
    (us : list Row) (d3 : Db) :
  update_request st sc i d = Some (us, d3) ->
  exists t v,
    d = Some t
    /\ d3 = Some (mkTable (map (set_result st v i) (rows t)) (next_id t))
    /\ us = filter (fun r => (id r =? i)%Z) (map (set_result st v i) (rows t))
    /\ match sc with
       | None => v = None
       | Some s => exists z, int4 s = Some z /\ v = Some z
       end.
Proof.
  unfold update_request. destruct d as [t|]; [|discriminate].
  destruct sc as [s|].
  - destruct (int4 s) as [z|]; [|discriminate]. simpl.
    destruct (String.length st <=? 20)%nat; [|discriminate].
    intro H. injection H as <- <-. exists t, (Some z). repeat split. eauto.
  - destruct (String.length st <=? 20)%nat; [|discriminate].
    intro H. injection H as <- <-. exists t, None. repeat split.
Qed.

Lemma set_result_id (st : string) (v : option Z) (i : Z) (r : Row) :
  id (set_result st v i r) = id r.
Proof. unfold set_result. destruct (id r =? i)%Z; reflexivity. Qed.

Lemma updated_nonempty (st : string) (v : option Z) (i : Z) (r : Row) (rs : list Row) :
  In r rs -> id r = i ->
  filter (fun r => (id r =? i)%Z) (map (set_result st v i) rs) <> [].
Proof.
  intros Hin Hid E.
  assert (H : In (set_result st v i r)
                 (filter (fun r => (id r =? i)%Z) (map (set_result st v i) rs))).
  { apply filter_In. split; [now apply in_map|].
    rewrite set_result_id. now apply Z.eqb_eq. }
  rewrite E in H. exact H.
Qed.

Lemma no_fault_3 (w : World) :
  hd false (faults w) = false ->
  hd false (tl (faults w)) = false ->
  hd false (tl (tl (faults w))) = false ->
  no_fault 3 w.
Proof.
  unfold no_fault.
  destruct (faults w) as [|[|] [|[|] [|[|] fs]]]; simpl; intros;
    reflexivity || discriminate.
Qed.

Lemma bind_unfold {A B : Type} (m : M A) (k : A -> M B) (w : World) :
  bind m k w = match m w with (Ok a, w') => k a w' | (Thrown, w') => (Thrown, w') end.
Proof. reflexivity. Qed.

Lemma apply_try_run (body : jsval) (w : World) :
  match apply_try is_email body w with
  | (Ok r, w') => Run is_email body w r w'
  | (Thrown, w') => Run is_email body w (mkResponse 500 InternalError) w'
  end.
Proof.
  unfold apply_try, ensureTables. rewrite bind_unfold.
  destruct (hd_fault_cases (faults w)) as [F1 | [fs1 F1]].
  2:{ rewrite (pool_query_fault _ _ _ _ F1). now apply RunEnsureFailed. }
  rewrite (pool_query_sent _ _ _ F1).
  destruct (safeParse is_email body) as [p | err] eqn:P.
  2:{ simpl. now apply RunInvalid. }
  rewrite bind_unfold.
  set (w1 := mkWorld _ _ _).
  destruct (hd_fault_cases (faults w1)) as [F2 | [fs2 F2]].
  2:{ rewrite (pool_query_fault _ _ _ _ F2). subst w1. cbn [db faults trace] in *.
      rewrite <- app_assoc. apply (RunInsertFailed _ _ _ p); auto.
      left. now rewrite F2. }
  rewrite (pool_query_sent _ _ _ F2).
  destruct (insert_request p (db w1)) as [[rs d2]|] eqn:I.
  2:{ subst w1. cbn [db faults trace] in *. rewrite <- app_assoc.
      apply (RunInsertFailed _ _ _ p); auto. }
  set (w2 := mkWorld _ _ _).
  rewrite bind_unfold.
  destruct (decide_run p w2) as [st [sc [D R]]]. rewrite D.
  set (w3 := mkWorld _ _ _).
  destruct (insert_request_inv _ _ _ _ I) as [t [row [Ht [-> [Hd2 [Hid [Hst Hsc]]]]]]].
  cbn [hd_error]. rewrite bind_unfold. unfold ret at 1.
  rewrite bind_unfold.
  destruct (hd_fault_cases (faults w3)) as [F3 | [fs3 F3]].
  2:{ rewrite (pool_query_fault _ _ _ _ F3).
      subst w3 w2 w1. cbn [db faults trace] in *.
      apply (RunUpdateFailed _ _ _ p row [] d2 st sc); auto.
      left. now rewrite F3. }
  rewrite (pool_query_sent _ _ _ F3).
  destruct (update_request st sc (id row) (db w3)) as [[us d3]|] eqn:U.
  2:{ subst w3 w2 w1. cbn [db faults trace] in *.
      apply (RunUpdateFailed _ _ _ p row [] d2 st sc); auto. }
  destruct us as [|u us].
  { exfalso. subst w3 w2. cbn [db] in U. rewrite Hd2 in U.
    apply update_request_inv in U. destruct U as [t' [v [Et [_ [Eu _]]]]].
    injection Et as <-. symmetry in Eu. revert Eu.
    apply (updated_nonempty st v (id row) row). cbn [rows].
    - apply in_or_app. right. now left.
    - reflexivity. }
  cbn [first]. rewrite bind_unfold. unfold ret.
  subst w3 w2 w1. cbn [db faults trace] in *.
  eapply (RunDecided _ _ _ p row [] d2 d3 st sc u us); try eassumption.
  now apply no_fault_3.
Qed.

Lemma post_apply_run (body : jsval) (w : World) (resp : Response) (w' : World) :
  post_apply is_email body w = (resp, w') -> Run is_email body w resp w'.
Proof.
  unfold post_apply. pose proof (apply_try_run body w) as R.
  destruct (apply_try is_email body w) as [[r|] w1]; intro E;
    injection E as <- <-; exact R.
Qed.

(** What the schema guarantees of a payload it lets through. *)
Lemma safeParse_valid (body : jsval) (p : Payload) :
  safeParse is_email body = ParseSuccess p ->
  (3 <= String.length (rut p))%nat
  /\ (3 <= String.length (full_name p))%nat
  /\ is_email (email p) = true
  /\ 0 < amount p
  /\ 0 < term_months p /\ Qis_int (term_months p) = true
  /\ (forall i, income p = Some i -> 0 < i).
Proof.
  unfold safeParse. destruct body as [ | | | | | |fields]; try discriminate.
  destruct (z_string_min 3 (get_field "rut" fields)) as [a|] eqn:Ea;
    [|discriminate].
  destruct (z_string_min 3 (get_field "full_name" fields)) as [b|] eqn:Eb;
    [|discriminate].
  destruct (z_string_email is_email (get_field "email" fields)) as [c|] eqn:Ec;
    [|discriminate].
  destruct (z_number_positive (get_field "amount" fields)) as [d|] eqn:Ed;
    [|discriminate].
  destruct (z_number_int_positive (get_field "term_months" fields)) as [e|] eqn:Ee;
    [|discriminate].
  destruct (z_number_positive_optional (get_field "income" fields)) as [f|] eqn:Ef;
    [|discriminate].
  intro H. injection H as <-. cbn [rut full_name email amount term_months income].
  repeat split.
  - unfold z_string_min in Ea. destruct (get_field "rut" fields); try discriminate.
    destruct (3 <=? String.length s)%nat eqn:L; [|discriminate].
    injection Ea as <-. now apply Nat.leb_le.
  - unfold z_string_min in Eb. destruct (get_field "full_name" fields); try discriminate.
    destruct (3 <=? String.length s)%nat eqn:L; [|discriminate].
    injection Eb as <-. now apply Nat.leb_le.
  - unfold z_string_email in Ec. destruct (get_field "email" fields); try discriminate.
    destruct (is_email s) eqn:L; [|discriminate]. now injection Ec as <-.
  - unfold z_number_positive in Ed. destruct (get_field "amount" fields); try discriminate.
    destruct (Qis_pos q) eqn:L; [|discriminate].
    injection Ed as <-. now apply Qis_pos_true.
  - unfold z_number_int_positive in Ee.
    destruct (get_field "term_months" fields); try discriminate.
    destruct (Qis_int q && Qis_pos q) eqn:L; [|discriminate].
    injection Ee as <-. apply andb_true_iff in L. now apply Qis_pos_true.
  - unfold z_number_int_positive in Ee.
    destruct (get_field "term_months" fields); try discriminate.
    destruct (Qis_int q && Qis_pos q) eqn:L; [|discriminate].
    injection Ee as <-. now apply andb_true_iff in L.
  - intros i ->. unfold z_number_positive_optional, z_number_positive in Ef.
    destruct (get_field "income" fields); try discriminate.
    destruct (Qis_pos q) eqn:L; [|discriminate].
    simpl in Ef. injection Ef as <-. now apply Qis_pos_true.
Qed.

(** On a payload the schema lets through, the base exceeds 60: an
    admissible application scores at least 60 and is always approved. *)
Remark valid_admissible_is_approved (body : jsval) (p : Payload) (w : World) :
  safeParse is_email body = ParseSuccess p ->
  isAdmissible (as_income p) (Fin (amount p)) = true ->
  exists s : Z,
    (60 <= s <= 100)%Z
    /\ fst (decide p w) = Ok ("aprobada", Some (num s)).
Proof.
  intros V A.
  destruct (safeParse_valid body p V) as [_ [_ [_ [Ha [Ht [_ Hi]]]]]].
  destruct (income p) as [i|] eqn:I.
  2:{ unfold as_income in A. rewrite I in A. discriminate A. }
  specialize (Hi i eq_refl).
  set (s := round_then_clamp (score_base i (amount p) (term_months p))).
  assert (S60 : (60 <= s <= 100)%Z).
  { subst s. unfold round_then_clamp, clamp_int.
    assert (B : inject_Z 60 <= score_base i (amount p) (term_months p)).
    { unfold score_base. change (inject_Z 60) with 60.
      assert (0 < amount p / term_months p) by (apply Qlt_shift_div_l; lra).
      assert (0 < i / (amount p / term_months p)) by (apply Qlt_shift_div_l; lra).
      lra. }
    apply Qround_half_up_mono in B. rewrite Qround_half_up_Z in B. lia. }
  exists s. split; [exact S60|].
  unfold decide, bind, log, ret. cbv beta iota. rewrite A.
  unfold as_income. rewrite I. cbn [option_map].
  rewrite (server_score_finite i _ _ Ha Ht). fold s.
  rewrite js_ge_num.
  assert (L : (55 <=? s)%Z = true) by (apply Z.leb_le; lia).
  rewrite L. reflexivity.
Qed.

Lemma int4_num (s z : Z) : int4 (num s) = Some z -> z = s.
Proof.
  unfold int4, num.
  destruct (Qis_int (inject_Z s) && (- 2 ^ 31 <=? Qfloor (inject_Z s))%Z
            && (Qfloor (inject_Z s) <? 2 ^ 31)%Z); [|discriminate].
  rewrite Qfloor_Z. congruence.
Qed.

Lemma updated_row (st : string) (v : option Z) (i : Z) (rs : list Row) (u : Row) :
  In u (filter (fun r => (id r =? i)%Z) (map (set_result st v i) rs)) ->
  id u = i /\ status u = st /\ scoring u = v
  /\ In u (map (set_result st v i) rs).
Proof.
  intro H. apply filter_In in H. destruct H as [Hin Hid].
  apply Z.eqb_eq in Hid. split; [exact Hid|].
  pose proof Hin as Hin'. apply in_map_iff in Hin. destruct Hin as [r0 [E _]].
  subst u. rewrite set_result_id in Hid. unfold set_result.
  apply Z.eqb_eq in Hid. rewrite Hid. simpl. repeat split.
  unfold set_result in Hin'. now rewrite Hid in Hin'.
Qed.

(** The pair written by the [UPDATE]: what the rule says, the score as
    the [INT] column takes it. *)
Lemma decided_values (p : Payload) (st : string) (sc : option jsnum) (v : option Z) :
  decision_rule p st sc ->
  match sc with
  | None => v = None
  | Some s => exists z, int4 s = Some z /\ v = Some z
  end ->
  (st = "inadmisible" /\ v = None)
  \/ ((st = "rechazada" \/ st = "aprobada")
      /\ exists s : Z, v = Some s /\ (1 <= s <= 100)%Z).
Proof.
  unfold decision_rule.
  destruct (isAdmissible (as_income p) (Fin (amount p))).
  - intros [s [_ [-> [R [Hap Hre]]]]] [z [Hz ->]].
    apply int4_num in Hz. subst z. right. split.
    + destruct (Z_lt_le_dec s 55); [left; auto | right; auto].
    + exists s. split; [reflexivity | exact R].
  - intros [-> ->] ->. left. split; reflexivity.
Qed.

Lemma decided_row_invariant (r : Row) (st : string) (v : option Z) :
  (st = "inadmisible" /\ v = None)
  \/ ((st = "rechazada" \/ st = "aprobada")
      /\ exists s : Z, v = Some s /\ (1 <= s <= 100)%Z) ->
  status r = st -> scoring r = v -> row_invariant r.
Proof.
  intros H <- <-. unfold row_invariant. tauto.
Qed.

Lemma create_table_rows (d : Db) :
  table_rows (create_table_if_not_exists d) = table_rows d.
Proof. destruct d; reflexivity. Qed.

(** Every request keeps the invariant of the rows. *)
Lemma post_apply_invariant (body : jsval) (w : World) :
  db_invariant (db w) -> db_invariant (db (snd (post_apply is_email body w))).
Proof.
  intro Inv.
  destruct (post_apply is_email body w) as [resp w'] eqn:E.
  apply post_apply_run in E. simpl snd.
  assert (Inv1 : db_invariant (create_table_if_not_exists (db w))).
  { unfold db_invariant. now rewrite create_table_rows. }
  assert (Ins : forall p row rs d2,
             insert_request p (create_table_if_not_exists (db w)) = Some (row :: rs, d2) ->
             db_invariant d2).
  { intros p row rs d2 I. apply insert_request_inv in I.
    destruct I as [t [row' [Ht [Er [-> [_ [Hst Hsc]]]]]]].
    unfold db_invariant in *. rewrite Ht in Inv1. simpl in *.
    apply Forall_app. split; [exact Inv1|].
    constructor; [|constructor]. left. split; assumption. }
  destruct E as [fs Hf | err Hf Hp | p fs Hf Hp _ | p row rs d2 st sc fs tr Hp HI _ _
                 | p row rs d2 d3 st sc u us tr _ Hp HI HR HU];
    cbn [db]; auto.
  - now apply (Ins p row rs).
  - pose proof (Ins _ _ _ _ HI) as Inv2.
    apply update_request_inv in HU.
    destruct HU as [t [v [-> [-> [_ Hv]]]]].
    pose proof (decided_values _ _ _ _ HR Hv) as V.
    unfold db_invariant in *. simpl in *.
    apply Forall_forall. intros r Hr.
    apply in_map_iff in Hr. destruct Hr as [r0 [<- Hr0]].
    rewrite Forall_forall in Inv2. specialize (Inv2 r0 Hr0).
    unfold set_result. destruct (id r0 =? id row)%Z; [|exact Inv2].
    now apply (decided_row_invariant _ st v).
Qed.

Lemma reachable_invariant (d : Db) : reachable is_email d -> db_invariant d.
Proof.
  induction 1 as [|w body _ IH].
  - constructor.
  - now apply post_apply_invariant.
Qed.

(** C4.  In every database the route can produce, a row whose status is
    no longer [pendiente] has a score exactly when its status is
    [rechazada] or [aprobada], has none exactly when its status is
    [inadmisible], and a score that is set is an integer of [1..100]. *)
Theorem decided_rows_score_iff_status (d : Db) (r : Row) :
  reachable is_email d ->
  In r (table_rows d) ->
  status r <> "pendiente" ->
  (scoring r <> None <-> (status r = "rechazada" \/ status r = "aprobada"))
  /\ (scoring r = None <-> status r = "inadmisible")
  /\ (forall s : Z, scoring r = Some s -> (1 <= s <= 100)%Z).
Proof.
  intros Hd Hr Hp.
  pose proof (reachable_invariant d Hd) as Inv.
  unfold db_invariant in Inv. rewrite Forall_forall in Inv.
  destruct (Inv r Hr) as [[E _] | [[E N] | [E [s [S R]]]]].
  - contradiction.
  - rewrite E, N. repeat split; try congruence.
    intros [H | H]; discriminate H.
  - rewrite S. split; [|split].
    + split; [intros _; exact E | intros _; discriminate].
    + split; [discriminate|].
      intro K. destruct E as [E | E]; rewrite E in K; discriminate K.
    + intros s' K. injection K as <-. exact R.
Qed.

(** C6, amended.  The record answered with status 201 is
    [{ id, status, scoring }]: [id] is the identifier of a registered
    row, [status] is one of the strings [inadmisible], [rechazada],
    [aprobada], and [scoring] is [null] or an integer of [1..100]; both
    are the ones the row now holds. *)
Theorem created_record_shape (body : jsval) (w : World) (resp : Response) (w' : World) :
  post_apply is_email body w = (resp, w') ->
  http_status resp = 201%Z ->
  exists (rid : Z) (st : string) (sc : jsval),
    json resp = Document (VObj [("id", VNum (inject_Z rid));
                                ("status", VStr st);
                                ("scoring", sc)])
    /\ (st = "inadmisible" \/ st = "rechazada" \/ st = "aprobada")
    /\ (sc = VNull \/ exists s : Z, sc = VNum (inject_Z s) /\ (1 <= s <= 100)%Z)
    /\ exists row : Row,
         In row (table_rows (db w')) /\ id row = rid
         /\ status row = st /\ json_of_scoring (scoring row) = sc.
Proof.
  intros E C. apply post_apply_run in E.
  destruct E as [ | | | | p row rs d2 d3 st sc u us tr _ _ _ HR HU];
    try discriminate C.
  apply update_request_inv in HU.
  destruct HU as [t [v [-> [-> [Eu Hv]]]]].
  assert (Hu : In u (filter (fun r => (id r =? id row)%Z)
                            (map (set_result st v (id row)) (rows t)))).
  { rewrite <- Eu. now left. }
  apply updated_row in Hu. destruct Hu as [Hid [Hst [Hsc Hin]]].
  exists (id row), st, (json_of_scoring v). cbn [json db table_rows rows].
  rewrite Hst, Hsc. split; [reflexivity|].
  destruct (decided_values _ _ _ _ HR Hv) as [[-> ->] | [Hs [s [-> R]]]].
  - split; [auto|]. split; [left; reflexivity|].
    exists u. rewrite Hsc. auto.
  - split; [tauto|]. split; [right; exists s; auto|].
    exists u. rewrite Hsc. auto.
Qed.

(** C10, amended.  A body that fails validation is answered after
    [ensureTables] alone has run: with 400 and the flattened error when
    that query succeeds, with 500 when it fails.  Either way neither rule
    is called, no further query is sent and the rows of the table are
    the same; the table itself is created when it was not there. *)
Theorem invalid_payload_never_decided
    (body : jsval) (w : World) (resp : Response) (w' : World) :
  post_apply is_email body w = (resp, w') ->
  success (safeParse is_email body) = false ->
  trace w' = (trace w ++ [QueryEnsureTables])%list
  /\ table_rows (db w') = table_rows (db w)
  /\ ((hd false (faults w) = false
       /\ (exists err, safeParse is_email body = ParseFailure err
                       /\ resp = mkResponse 400 (InvalidPayload err))
       /\ db w' = create_table_if_not_exists (db w))
      \/ (hd false (faults w) = true
          /\ resp = mkResponse 500 InternalError
          /\ db w' = db w)).
Proof.
  intros E F. apply post_apply_run in E.
  destruct E as [fs Hf | err Hf Hp | p fs Hf Hp _ | p row rs d2 st sc fs tr Hp _ _ _
                 | p row rs d2 d3 st sc u us tr _ Hp _ _ _];
    try (rewrite Hp in F; discriminate F); cbn [db trace].
  - split; [reflexivity|]. split; [reflexivity|]. right.
    rewrite Hf. auto.
  - split; [reflexivity|]. split; [apply create_table_rows|]. left.
    split; [exact Hf|]. split; [|reflexivity]. exists err. auto.
Qed.

Lemma no_fault_3_hd (w : World) :
  no_fault 3 w ->
  hd false (faults w) = false
  /\ hd false (tl (faults w)) = false
  /\ hd false (tl (tl (faults w))) = false.
Proof.
  unfold no_fault.
  destruct (faults w) as [|[|] [|[|] [|[|] fs]]]; simpl; intro H;
    repeat split; reflexivity || discriminate H.
Qed.

Lemma z_string_min_ok (n : nat) (s : string) :
  (n <= String.length s)%nat -> z_string_min n (VStr s) = Some s.
Proof. intro H. simpl. apply Nat.leb_le in H. now rewrite H. Qed.

(** C5, amended.  A submission of amount 500000 over 12 months whose
    income is absent, whose other fields are valid, whose [rut] fits the
    twelve characters of its column and none of whose three queries
    fails, is decided [inadmisible] with no score.  An income that is
    present has to be positive: with an income of 0 (or below) the same
    submission is refused with status 400 for the field [income], and is
    neither registered nor decided. *)
Theorem income_absent_inadmissible_income_zero_refused
    (fields : list (string * jsval)) (w : World) (r n e : string) :
  get_field "rut" fields = VStr r ->
  (3 <= String.length r <= 12)%nat ->
  get_field "full_name" fields = VStr n ->
  (3 <= String.length n)%nat ->
  get_field "email" fields = VStr e ->
  is_email e = true ->
  get_field "amount" fields = VNum 500000 ->
  get_field "term_months" fields = VNum 12 ->
  no_fault 3 w ->
  (get_field "income" fields = VUndef ->
   exists (rid : Z) (row : Row) (w' : World),
     post_apply is_email (VObj fields) w
     = (mkResponse 201 (Document (VObj [("id", VNum (inject_Z rid));
                                         ("status", VStr "inadmisible");
                                         ("scoring", VNull)])), w')
     /\ In row (table_rows (db w')) /\ id row = rid
     /\ status row = "inadmisible" /\ scoring row = None)
  /\ (forall i : Q,
        get_field "income" fields = VNum i -> i <= 0 ->
        post_apply is_email (VObj fields) w
        = (mkResponse 400 (InvalidPayload (FieldErrors ["income"])),
           mkWorld (create_table_if_not_exists (db w)) (tl (faults w))
                   (trace w ++ [QueryEnsureTables]))).
Proof.
  intros Hr [Lr Ur] Hn Ln He Ee Ha Ht NF.
  destruct (no_fault_3_hd w NF) as [F1 [F2 F3]].
  split.
  - intro Hi.
    assert (SP : safeParse is_email (VObj fields)
                 = ParseSuccess (mkPayload r n e 500000 12 None)).
    { unfold safeParse. rewrite Hr, Hn, He, Ha, Ht, Hi.
      rewrite (z_string_min_ok 3 r Lr), (z_string_min_ok 3 n Ln).
      unfold z_string_email. rewrite Ee. reflexivity. }
    destruct (post_apply is_email (VObj fields) w) as [resp w'] eqn:E.
    pose proof (post_apply_run _ _ _ _ E) as R.
    assert (INS : forall t, exists row,
               insert_request (mkPayload r n e 500000 12 None) (Some t)
               = Some ([row], Some (mkTable (rows t ++ [row]) (next_id t + 1)))).
    { intro t. unfold insert_request, varchar. cbn [rut amount term_months income].
      apply Nat.leb_le in Ur. rewrite Ur. eexists. reflexivity. }
    assert (CT : exists t, create_table_if_not_exists (db w) = Some t)
      by (destruct (db w); simpl; eauto).
    destruct CT as [t CT].
    destruct (INS t) as [row0 I0].
    destruct R as [fs Hf | err _ Hp | p fs _ Hp HI
                   | p row rs d2 st sc fs tr Hp HI HR HU
                   | p row rs d2 d3 st sc u us tr _ Hp HI HR HU].
    + rewrite Hf in F1. discriminate F1.
    + rewrite SP in Hp. discriminate Hp.
    + rewrite SP in Hp. injection Hp as <-.
      destruct HI as [HI | HI]; [congruence|].
      rewrite CT, I0 in HI. discriminate HI.
    + rewrite SP in Hp. injection Hp as <-.
      destruct HU as [HU | HU]; [congruence|].
      rewrite CT, I0 in HI. injection HI as <- <- <-.
      destruct HR as [-> ->]. discriminate HU.
    + rewrite SP in Hp. injection Hp as <-.
      rewrite CT, I0 in HI. injection HI as <- <- <-.
      destruct HR as [-> ->].
      apply update_request_inv in HU.
      destruct HU as [t' [v [Et [-> [Eu ->]]]]].
      assert (Hu : In u (filter (fun x => (id x =? id row0)%Z)
                                (map (set_result "inadmisible" None (id row0)) (rows t')))).
      { rewrite <- Eu. now left. }
      apply updated_row in Hu. destruct Hu as [Hid [Hst [Hsc Hin]]].
      exists (id row0), u. eexists. rewrite Hst, Hsc. simpl json_of_scoring.
      split; [reflexivity|]. cbn [db table_rows rows]. auto.
  - intros i Hi Hle.
    assert (SP : safeParse is_email (VObj fields)
                 = ParseFailure (FieldErrors ["income"])).
    { unfold safeParse. rewrite Hr, Hn, He, Ha, Ht, Hi.
      rewrite (z_string_min_ok 3 r Lr), (z_string_min_ok 3 n Ln).
      unfold z_string_email. rewrite Ee.
      unfold z_number_positive_optional, z_number_positive.
      apply Qis_pos_false in Hle. rewrite Hle. reflexivity. }
    unfold post_apply, apply_try, ensureTables. rewrite bind_unfold.
    rewrite (pool_query_sent _ _ _ F1), SP. reflexivity.
Qed.

End RouteFacts.

(** ** The properties on concrete requests *)

Section ConcreteRuns.

Import Server Spec Runs Sample.
Local Open Scope string_scope.

(** The end-to-end scenarios of the specification and the self-tests of
    the client. *)
Example scenario_A :
  fst (post_apply sample_is_email body_scenario_A fresh)
  = mkResponse 201 (Document (VObj [("id", VNum 1); ("status", VStr "aprobada");
                                    ("scoring", VNum 76)])).
Proof. reflexivity. Qed.

Example scenario_B :
  isAdmissible (Some (num 10000000)) (num 100000) = true
  /\ computeScore (Some (num 10000000)) (num 100000) (Some (num 12)) = num 100.
Proof. split; reflexivity. Qed.

Example scenario_C :
  fst (post_apply sample_is_email body_income_absent fresh)
  = mkResponse 201 (Document (VObj [("id", VNum 1); ("status", VStr "inadmisible");
                                    ("scoring", VNull)])).
Proof. reflexivity. Qed.

Example scenario_D : isAdmissible (Some (num 100000)) (num 3000000) = false.
Proof. reflexivity. Qed.

Example client_self_tests :
  Client.estimateMonthlyPayment (num 1500000) 24 (Some (num 0)) = num 62500
  /\ Client.estimateMonthlyPayment (num 0) 24 None = num 0
  /\ Client.computeScore (num 1000000) (num 1500000) (num 24) = num 76
  /\ Client.computeScore (num 10000000) (num 100000) (num 12) = num 100
  /\ Client.computeScore (num (-1)) (num 0) (num 12) = num 1.
Proof. repeat split. Qed.

Lemma decided_rows_score_iff_status_witness :
  (scoring row_scenario_A <> None
   <-> (status row_scenario_A = "rechazada" \/ status row_scenario_A = "aprobada"))
  /\ (scoring row_scenario_A = None <-> status row_scenario_A = "inadmisible")
  /\ (forall s : Z, scoring row_scenario_A = Some s -> (1 <= s <= 100)%Z).
Proof.
  apply (decided_rows_score_iff_status sample_is_email
           (db (snd (post_apply sample_is_email body_scenario_A fresh)))
           row_scenario_A).
  - apply (reachable_post sample_is_email fresh body_scenario_A).
    apply reachable_init.
  - left. reflexivity.
  - discriminate.
Defined.

(** C5 as stated fails at an income of 0: the submission of scenario C
    is then refused by the schema; the answer is 400 for the field
    [income], the table holds no row and no rule was called. *)
Lemma income_zero_is_refused :
  post_apply sample_is_email body_income_zero fresh
  = (mkResponse 400 (InvalidPayload (FieldErrors ["income"])),
     mkWorld (Some (mkTable [] 1)) [] [QueryEnsureTables]).
Proof. reflexivity. Qed.

Lemma income_absent_inadmissible_income_zero_refused_witness :
  (get_field "income" (sample_fields []) = VUndef ->
   exists (rid : Z) (row : Row) (w' : World),
     post_apply sample_is_email (VObj (sample_fields [])) fresh
     = (mkResponse 201 (Document (VObj [("id", VNum (inject_Z rid));
                                         ("status", VStr "inadmisible");
                                         ("scoring", VNull)])), w')
     /\ In row (table_rows (db w')) /\ id row = rid
     /\ status row = "inadmisible" /\ scoring row = None)
  /\ (forall i : Q,
        get_field "income" (sample_fields []) = VNum i -> i <= 0 ->
        post_apply sample_is_email (VObj (sample_fields [])) fresh
        = (mkResponse 400 (InvalidPayload (FieldErrors ["income"])),
           mkWorld (create_table_if_not_exists (db fresh)) (tl (faults fresh))
                   (trace fresh ++ [QueryEnsureTables]))).
Proof.
  apply (income_absent_inadmissible_income_zero_refused sample_is_email
           (sample_fields []) fresh "11.111.111-1" "Ana Rojas" "ana@example.cl");
    try reflexivity; simpl; lia.
Defined.

(** C6 as stated fails on the record answered for scenario C with the
    income absent: its status is the string [inadmisible], not
    [inadmissible], its score is under the key [scoring] and its
    identifier under [id]; there is no field [score] and no field
    [applicationId]. *)
Lemma created_record_keys_and_status :
  exists fields : list (string * jsval),
    fst (post_apply sample_is_email body_income_absent fresh)
    = mkResponse 201 (Document (VObj fields))
    /\ get_field "status" fields = VStr "inadmisible"
    /\ VStr "inadmisible" <> VStr "inadmissible"
    /\ get_field "scoring" fields = VNull
    /\ get_field "score" fields = VUndef
    /\ get_field "id" fields = VNum 1
    /\ get_field "applicationId" fields = VUndef.
Proof.
  eexists. split; [reflexivity|]. repeat split. discriminate.
Qed.

Lemma created_record_shape_witness :
  exists (rid : Z) (st : string) (sc : jsval),
    json (fst (post_apply sample_is_email body_scenario_A fresh))
    = Document (VObj [("id", VNum (inject_Z rid)); ("status", VStr st);
                      ("scoring", sc)])
    /\ (st = "inadmisible" \/ st = "rechazada" \/ st = "aprobada")
    /\ (sc = VNull \/ exists s : Z, sc = VNum (inject_Z s) /\ (1 <= s <= 100)%Z)
    /\ exists row : Row,
         In row (table_rows (db (snd (post_apply sample_is_email body_scenario_A fresh))))
         /\ id row = rid /\ status row = st /\ json_of_scoring (scoring row) = sc.
Proof.
  apply (created_record_shape sample_is_email body_scenario_A fresh
           (fst (post_apply sample_is_email body_scenario_A fresh))
           (snd (post_apply sample_is_email body_scenario_A fresh)));
    reflexivity.
Defined.

(** C10 as stated fails while the database is down: a body that fails
    validation is then answered 500 [internal_error], not with a
    validation error. *)
Lemma invalid_payload_database_down :
  success (safeParse sample_is_email body_income_zero) = false
  /\ post_apply sample_is_email body_income_zero database_down
     = (mkResponse 500 InternalError, mkWorld None [] [QueryEnsureTables]).
Proof. split; reflexivity. Qed.

Lemma invalid_payload_never_decided_witness :
  trace (snd (post_apply sample_is_email body_income_zero fresh))
  = (trace fresh ++ [QueryEnsureTables])%list
  /\ table_rows (db (snd (post_apply sample_is_email body_income_zero fresh)))
     = table_rows (db fresh)
  /\ ((hd false (faults fresh) = false
       /\ (exists err, safeParse sample_is_email body_income_zero = ParseFailure err
                       /\ fst (post_apply sample_is_email body_income_zero fresh)
                          = mkResponse 400 (InvalidPayload err))
       /\ db (snd (post_apply sample_is_email body_income_zero fresh))
          = create_table_if_not_exists (db fresh))
      \/ (hd false (faults fresh) = true
          /\ fst (post_apply sample_is_email body_income_zero fresh)
             = mkResponse 500 InternalError
          /\ db (snd (post_apply sample_is_email body_income_zero fresh)) = db fresh)).
Proof.
  apply (invalid_payload_never_decided sample_is_email body_income_zero fresh
           (fst (post_apply sample_is_email body_income_zero fresh))
           (snd (post_apply sample_is_email body_income_zero fresh)));
    reflexivity.
Defined.

End ConcreteRuns.

(** ** Further properties of the two rules *)

Section RuleFacts.

Lemma num_inj (a b : Z) : num a = num b -> a = b.
Proof. unfold num, inject_Z. intro H. now injection H. Qed.




(** The base of the score is finite whenever the amount is not zero,
    whatever the term: a zero term is replaced by 24. *)
Lemma base_finite_nonzero (i a t : Q) :
  ~ a == 0 ->
  exists b : Q,
    js_add (num 60) (js_div (Fin i) (js_div (Fin a) (js_or (Fin t) (num 24))))
    = Fin b.
Proof.
  intro Ha.
  assert (Ht : exists t', js_or (Fin t) (num 24) = Fin t' /\ ~ t' == 0).
  { unfold js_or. simpl. destruct (Qis_zero t) eqn:Zt; simpl.
    - exists (inject_Z 24). split; [reflexivity | discriminate].
    - exists t. split; [reflexivity | now apply Qis_zero_false]. }
  destruct Ht as [t' [-> Ht']].
  assert (Zt : Qis_zero t' = false) by now apply Qis_zero_false.
  assert (Zq : Qis_zero (a / t') = false).
  { apply Qis_zero_false. intro E. apply Ha.
    setoid_replace a with (a / t' * t') by (field; exact Ht').
    rewrite E. ring. }
  unfold num. simpl. rewrite Zt, Zq. eexists. reflexivity.
Qed.

(** The preview and the server agree wherever the guard of the preview
    does not fire: on every income >= 0, every amount other than zero and
    every term, zero and negative terms included. *)
Theorem client_server_computeScore_agree_off_guard (i a t : Q) :
  0 <= i -> ~ a == 0 ->
  Client.computeScore (Fin i) (Fin a) (Fin t)
  = Server.computeScore (Some (Fin i)) (Fin a) (Some (Fin t)).
Proof.
  intros Hi Ha.
  destruct (base_finite_nonzero i a t Ha) as [b Hb].
  unfold Client.computeScore, Server.computeScore.
  assert (Za : truthy (Fin a) = true).
  { simpl. apply negb_true_iff. now apply Qis_zero_false. }
  assert (Li : js_lt (Fin i) (num 0) = false).
  { simpl. apply negb_false_iff, Qle_bool_iff. exact Hi. }
  rewrite Za, Li. simpl negb. simpl orb. cbv iota.
  rewrite Hb, clamp_of_round, round_of_clamp. reflexivity.
Qed.

Lemma client_server_computeScore_agree_off_guard_witness :
  Client.computeScore (Fin 1000000) (Fin 1500000) (Fin 0)
  = Server.computeScore (Some (Fin 1000000)) (Fin 1500000) (Some (Fin 0)).
Proof.
  apply (client_server_computeScore_agree_off_guard 1000000 1500000 0);
    discriminate.
Defined.






(** Admissibility is monotone: for a positive amount, asking for less or
    earning more keeps an admissible application admissible. *)
Theorem isAdmissible_monotone (i i' a a' : Q) :
  0 < a ->
  Server.isAdmissible (Some (Fin i)) (Fin a) = true ->
  a' <= a -> i <= i' ->
  Server.isAdmissible (Some (Fin i')) (Fin a') = true.
Proof.
  intros Ha A Ha' Hi. unfold Server.isAdmissible in *. simpl in *.
  destruct (Qis_zero i) eqn:Zi; [discriminate|]. simpl in A.
  apply Qle_bool_iff in A. change (inject_Z 20) with 20 in *.
  assert (Zi' : Qis_zero i' = false) by (apply Qis_zero_false; lra).
  rewrite Zi'. simpl. apply Qle_bool_iff. lra.
Qed.

Lemma isAdmissible_monotone_witness :
  Server.isAdmissible (Some (Fin 2000000)) (Fin 1000000) = true.
Proof.
  apply (isAdmissible_monotone 1000000 2000000 1500000 1000000);
    reflexivity || discriminate.
Defined.

End RuleFacts.

(** ** Bounds of the monthly payment *)

Section PaymentFacts.











(** [clamp] keeps every number but [NaN] within finite bounds
    [lo <= hi], leaves a number already within them as it is, and
    answers [NaN] on [NaN]. *)
Theorem clamp_within_bounds (x : jsnum) (lo hi : Q) :
  lo <= hi ->
  (x <> NaN ->
   exists y : Q,
     Client.clamp x (Fin lo) (Fin hi) = Fin y /\ lo <= y <= hi
     /\ (forall q, x = Fin q -> lo <= q <= hi -> y == q))
  /\ Client.clamp NaN (Fin lo) (Fin hi) = NaN.
Proof.
  intro H. split; [|reflexivity].
  intro Hx. unfold Client.clamp. destruct x as [q | | |]; [| | |congruence].
  - simpl. destruct (Qle_bool lo q) eqn:A.
    + apply Qle_bool_iff in A. simpl.
      destruct (Qle_bool hi q) eqn:B.
      * apply Qle_bool_iff in B. exists hi. repeat split; try lra.
        intros q' E [_ Hq]. injection E as <-. lra.
      * apply Qle_bool_false in B. exists q. repeat split; try lra.
        intros q' E _. now injection E as <-.
    + apply Qle_bool_false in A. simpl.
      destruct (Qle_bool hi lo) eqn:B.
      * apply Qle_bool_iff in B. exists hi. repeat split; try lra.
        intros q' E [Hq _]. injection E as <-. lra.
      * exists lo. repeat split; try lra.
        intros q' E [Hq _]. injection E as <-. lra.
  - simpl. exists hi. repeat split; try lra. discriminate.
  - simpl. destruct (Qle_bool hi lo) eqn:B.
    + apply Qle_bool_iff in B. exists hi. repeat split; try lra. discriminate.
    + exists lo. repeat split; try lra. discriminate.
Qed.

Lemma clamp_within_bounds_witness :
  (PInf <> NaN ->
   exists y : Q,
     Client.clamp PInf (Fin 1) (Fin 100) = Fin y /\ 1 <= y <= 100
     /\ (forall q, PInf = Fin q -> 1 <= q <= 100 -> y == q))
  /\ Client.clamp NaN (Fin 1) (Fin 100) = NaN.
Proof.
  apply (clamp_within_bounds PInf 1 100). discriminate.
Defined.

End PaymentFacts.

(** ** The table under the route *)

Section TableFacts.

Import Server Spec Runs.
Local Open Scope string_scope.

Variable is_email : string -> bool.

Lemma create_table_wf (d : Db) : db_wf d -> db_wf (create_table_if_not_exists d).
Proof.
  destruct d as [t|]; simpl; [auto|]. intros _.
  unfold table_wf. simpl. split; [lia|]. split; constructor.
Qed.

Lemma reachable_tables_wf_init : db_wf None.
Proof. exact I. Qed.

Lemma map_set_result_other (st : string) (v : option Z) (i : Z) (rs : list Row) :
  Forall (fun r => id r <> i) rs -> map (set_result st v i) rs = rs.
Proof.
  induction 1 as [|r rs Hr _ IH]; [reflexivity|]. simpl.
  rewrite IH. unfold set_result.
  apply Z.eqb_neq in Hr. now rewrite Hr.
Qed.

Lemma filter_id_other (i : Z) (rs : list Row) :
  Forall (fun r => id r <> i) rs -> filter (fun r => (id r =? i)%Z) rs = [].
Proof.
  induction 1 as [|r rs Hr _ IH]; [reflexivity|]. simpl.
  apply Z.eqb_neq in Hr. now rewrite Hr.
Qed.

Lemma wf_ids_below (t : Table) :
  table_wf t -> Forall (fun r => id r <> next_id t) (rows t).
Proof.
  intros [_ [B _]]. eapply Forall_impl; [|exact B]. simpl. intros r Hr. lia.
Qed.

(** The table after an accepted [INSERT]. *)
Lemma insert_request_wf (p : Payload) (t : Table) (row : Row) (rs : list Row) (d2 : Db) :
  table_wf t ->
  insert_request p (Some t) = Some (row :: rs, d2) ->
  rs = [] /\ id row = next_id t /\ status row = "pendiente" /\ scoring row = None
  /\ d2 = Some (mkTable (rows t ++ [row]) (next_id t + 1))
  /\ db_wf d2.
Proof.
  intros [N [B D]] I. apply insert_request_inv in I.
  destruct I as [t' [row' [Et [Er [-> [Hid [Hst Hsc]]]]]]].
  injection Et as <-. injection Er as -> ->.
  repeat split; auto; simpl.
  - lia.
  - apply Forall_app. split.
    + eapply Forall_impl; [|exact B]. simpl. intros r Hr. lia.
    + constructor; [|constructor]. simpl. lia.
  - rewrite map_app. apply NoDup_app; [exact D | repeat constructor; auto |].
    intros a Ha [<- | []]. apply in_map_iff in Ha. destruct Ha as [r [E Hr]].
    rewrite Forall_forall in B. specialize (B r Hr). simpl in B. lia.
Qed.

(** The table after the [UPDATE] that follows: only the new row is
    touched, and it is the one row returned. *)
Lemma update_after_insert (t : Table) (row : Row) (st : string)
    (sc : option jsnum) (us : list Row) (d3 : Db) :
  table_wf t -> id row = next_id t ->
  update_request st sc (id row)
    (Some (mkTable (rows t ++ [row]) (next_id t + 1))) = Some (us, d3) ->
  exists v,
    us = [set_result st v (id row) row]
    /\ d3 = Some (mkTable (rows t ++ [set_result st v (id row) row]) (next_id t + 1))
    /\ match sc with
       | None => v = None
       | Some s => exists z, int4 s = Some z /\ v = Some z
       end.
Proof.
  intros W Hid U. apply update_request_inv in U.
  destruct U as [t' [v [Et [-> [-> Hv]]]]]. injection Et as <-. simpl.
  pose proof (wf_ids_below t W) as O. rewrite <- Hid in O.
  exists v. rewrite map_app, filter_app.
  rewrite (map_set_result_other _ _ _ _ O), (filter_id_other _ _ O). simpl.
  rewrite set_result_id, Z.eqb_refl. auto.
Qed.

Lemma set_result_same (st : string) (v : option Z) (r : Row) :
  id (set_result st v (id r) r) = id r
  /\ status (set_result st v (id r) r) = st
  /\ scoring (set_result st v (id r) r) = v.
Proof. unfold set_result. rewrite Z.eqb_refl. simpl. auto. Qed.


End TableFacts.

(** ** What a request does to the table *)

Section RouteFrame.

Import Server Spec Runs.
Local Open Scope string_scope.

Variable is_email : string -> bool.

Lemma table_wf_snoc (t : Table) (r : Row) :
  table_wf t -> id r = next_id t ->
  table_wf (mkTable (rows t ++ [r]) (next_id t + 1)).
Proof.
  intros [N [B D]] Hid. unfold table_wf. simpl. split; [lia|]. split.
  - apply Forall_app. split.
    + eapply Forall_impl; [|exact B]. simpl. intros o Ho. lia.
    + constructor; [|constructor]. lia.
  - rewrite map_app. apply NoDup_app; [exact D | repeat constructor; auto |].
    intros a Ha [<- | []]. apply in_map_iff in Ha. destruct Ha as [o [E Ho]].
    rewrite Forall_forall in B. specialize (B o Ho). simpl in B. lia.
Qed.

Lemma created_table (d : Db) :
  db_wf d ->
  exists t, create_table_if_not_exists d = Some t
            /\ rows t = table_rows d /\ table_wf t.
Proof.
  intro W. destruct d as [t|]; simpl.
  - exists t. auto.
  - eexists. split; [reflexivity|]. split; [reflexivity|].
    unfold table_wf. simpl. split; [lia|]. split; constructor.
Qed.

Lemma ids_below_new (t : Table) (r : Row) :
  table_wf t -> id r = next_id t ->
  Forall (fun o => (id o < id r)%Z) (rows t).
Proof.
  intros [_ [B _]] Hid. eapply Forall_impl; [|exact B]. simpl. intros o Ho. lia.
Qed.

Lemma post_apply_frame
    (body : jsval) (w : World) (resp : Response) (w' : World) :
  db_wf (db w) ->
  post_apply is_email body w = (resp, w') ->
  db_wf (db w')
  /\ exists new : list Row,
       table_rows (db w') = (table_rows (db w) ++ new)%list
       /\ Forall (fun r => Forall (fun o => (id o < id r)%Z) (table_rows (db w))) new
       /\ ((http_status resp = 400%Z /\ new = [])
           \/ (http_status resp = 500%Z
               /\ (new = []
                   \/ exists r, new = [r] /\ status r = "pendiente" /\ scoring r = None))
           \/ (http_status resp = 201%Z
               /\ exists r, new = [r] /\ status r <> "pendiente"
                            /\ json resp = Document (json_of_row r))).
Proof.
  intros W E. apply post_apply_run in E.
  destruct (created_table (db w) W) as [t [CT [Rt Wt]]].
  destruct E as [fs Hf | err Hf Hp | p fs Hf Hp _ | p row rs d2 st sc fs tr Hp HI _ _
                 | p row rs d2 d3 st sc u us tr _ Hp HI HR HU]; cbn [db].
  - split; [exact W|]. exists []. rewrite app_nil_r.
    split; [reflexivity|]. split; [constructor|]. right. left. auto.
  - split; [now apply create_table_wf|]. exists [].
    rewrite app_nil_r, create_table_rows.
    split; [reflexivity|]. split; [constructor|]. left. auto.
  - split; [now apply create_table_wf|]. exists [].
    rewrite app_nil_r, create_table_rows.
    split; [reflexivity|]. split; [constructor|]. right. left. auto.
  - rewrite CT in HI.
    destruct (insert_request_wf p t row rs d2 Wt HI) as [-> [Hid [Hst [Hsc [-> W2]]]]].
    split; [exact W2|]. exists [row]. simpl. rewrite Rt.
    split; [reflexivity|]. split.
    + constructor; [|constructor]. rewrite <- Rt. now apply ids_below_new.
    + right. left. split; [reflexivity|]. right. exists row. auto.
  - rewrite CT in HI.
    destruct (insert_request_wf p t row rs d2 Wt HI) as [-> [Hid [Hst [Hsc [-> W2]]]]].
    destruct (update_after_insert t row st sc (u :: us) d3 Wt Hid HU)
      as [v [Eu [-> Hv]]].
    injection Eu as -> ->.
    destruct (set_result_same st v row) as [Sid [Sst Ssc]].
    split.
    { simpl. apply table_wf_snoc; [exact Wt | congruence]. }
    exists [set_result st v (id row) row]. simpl. rewrite Rt.
    split; [reflexivity|]. split.
    + constructor; [|constructor]. rewrite <- Rt. rewrite Sid.
      now apply ids_below_new.
    + right. right. split; [reflexivity|].
      exists (set_result st v (id row) row). split; [reflexivity|]. split.
      * rewrite Sst.
        destruct (decided_values _ _ _ _ HR Hv) as [[-> _] | [[-> | ->] _]];
          discriminate.
      * unfold json_of_row. now rewrite Sid.
Qed.

Lemma post_apply_wf (body : jsval) (w : World) :
  db_wf (db w) -> db_wf (db (snd (post_apply is_email body w))).
Proof.
  intro W. destruct (post_apply is_email body w) as [resp w'] eqn:E.
  now destruct (post_apply_frame body w resp w' W E).
Qed.

Lemma reachable_wf (d : Db) : reachable is_email d -> db_wf d.
Proof.
  induction 1 as [|w body _ IH]; [exact I | now apply post_apply_wf].
Qed.

(** In every database the route can produce the identifiers are
    positive and pairwise distinct. *)
Theorem reachable_ids_unique (d : Db) :
  reachable is_email d ->
  NoDup (map id (table_rows d))
  /\ Forall (fun r => (1 <= id r)%Z) (table_rows d).
Proof.
  intro R. pose proof (reachable_wf d R) as W.
  destruct d as [t|]; simpl.
  - destruct W as [_ [B D]]. split; [exact D|].
    eapply Forall_impl; [|exact B]. simpl. intros r Hr. lia.
  - split; constructor.
Qed.

(** On a database the route has produced, a request never alters or
    removes a row that was there: it appends at most one row, whose
    identifier is above all the others.  Answered 400 it appends none;
    answered 500 it appends none or leaves the new row [pendiente]
    without a score; answered 201 it appends the decided row, which is
    the record it answers. *)
Theorem post_apply_appends_at_most_one_row
    (body : jsval) (w : World) (resp : Response) (w' : World) :
  reachable is_email (db w) ->
  post_apply is_email body w = (resp, w') ->
  exists new : list Row,
    table_rows (db w') = (table_rows (db w) ++ new)%list
    /\ Forall (fun r => Forall (fun o => (id o < id r)%Z) (table_rows (db w))) new
    /\ ((http_status resp = 400%Z /\ new = [])
        \/ (http_status resp = 500%Z
            /\ (new = []
                \/ exists r, new = [r] /\ status r = "pendiente" /\ scoring r = None))
        \/ (http_status resp = 201%Z
            /\ exists r, new = [r] /\ status r <> "pendiente"
                         /\ json resp = Document (json_of_row r))).
Proof.
  intros R E.
  pose proof (reachable_wf (db w) R) as W.
  destruct (post_apply_frame body w resp w' W E) as [_ [new [Er [Hlt Hc]]]].
  exists new. split; [exact Er|]. split; [exact Hlt|].
  destruct Hc as [[C N] | [[C N] | [C N]]].
  - left. split; assumption.
  - right. left. split; assumption.
  - right. right. split; assumption.
Qed.

End RouteFrame.

(** ** What the route never does *)

Section RouteNever.

Import Server Spec Runs.
Local Open Scope string_scope.

Variable is_email : string -> bool.

(** On a payload the schema lets through, the rule gives [inadmisible]
    without a score or [aprobada] with a score of [60..100]. *)
Lemma valid_decision (body : jsval) (p : Payload) (st : string) (sc : option jsnum) :
  safeParse is_email body = ParseSuccess p ->
  decision_rule p st sc ->
  (st = "inadmisible" /\ sc = None)
  \/ (st = "aprobada" /\ exists s : Z, sc = Some (num s) /\ (60 <= s <= 100)%Z).
Proof.
  intros V. unfold decision_rule.
  destruct (isAdmissible (as_income p) (Fin (amount p))) eqn:A; [|auto].
  intros [s [Hs [-> [R [Hap _]]]]]. right.
  destruct (safeParse_valid is_email body p V) as [_ [_ [_ [Ha [Ht [_ Hi]]]]]].
  destruct (income p) as [i|] eqn:I.
  2:{ unfold as_income in A. rewrite I in A. discriminate A. }
  specialize (Hi i eq_refl).
  unfold as_income in Hs. rewrite I in Hs. cbn [option_map] in Hs.
  rewrite (server_score_finite i _ _ Ha Ht) in Hs. apply num_inj in Hs.
  assert (S60 : (60 <= s)%Z).
  { rewrite <- Hs. unfold round_then_clamp, clamp_int.
    assert (B : inject_Z 60 <= score_base i (amount p) (term_months p)).
    { unfold score_base. change (inject_Z 60) with 60.
      assert (0 < amount p / term_months p) by (apply Qlt_shift_div_l; lra).
      assert (0 < i / (amount p / term_months p)) by (apply Qlt_shift_div_l; lra).
      lra. }
    apply Qround_half_up_mono in B. rewrite Qround_half_up_Z in B. lia. }
  split; [apply Hap; lia|]. exists s. split; [reflexivity | lia].
Qed.

Lemma never_rejected_step (body : jsval) (w : World) :
  Forall (fun r => status r <> "rechazada"
                   /\ forall s, scoring r = Some s ->
                                status r = "aprobada" /\ (60 <= s <= 100)%Z)
         (table_rows (db w)) ->
  Forall (fun r => status r <> "rechazada"
                   /\ forall s, scoring r = Some s ->
                                status r = "aprobada" /\ (60 <= s <= 100)%Z)
         (table_rows (db (snd (post_apply is_email body w)))).
Proof.
  intro Inv.
  destruct (post_apply is_email body w) as [resp w'] eqn:E.
  apply post_apply_run in E. simpl snd.
  assert (Inv1 : Forall (fun r => status r <> "rechazada"
                   /\ forall s, scoring r = Some s ->
                                status r = "aprobada" /\ (60 <= s <= 100)%Z)
                   (table_rows (create_table_if_not_exists (db w))))
    by now rewrite create_table_rows.
  assert (Ins : forall p row rs d2,
             insert_request p (create_table_if_not_exists (db w)) = Some (row :: rs, d2) ->
             Forall (fun r => status r <> "rechazada"
                   /\ forall s, scoring r = Some s ->
                                status r = "aprobada" /\ (60 <= s <= 100)%Z)
                    (table_rows d2)).
  { intros p row rs d2 HI. apply insert_request_inv in HI.
    destruct HI as [t [row' [Ht [Er [-> [_ [Hst Hsc]]]]]]].
    rewrite Ht in Inv1. simpl in *.
    apply Forall_app. split; [exact Inv1|].
    constructor; [|constructor]. rewrite Hst, Hsc. split; [discriminate|].
    intros s Hs. discriminate Hs. }
  destruct E as [fs Hf | err Hf Hp | p fs Hf Hp _ | p row rs d2 st sc fs tr Hp HI _ _
                 | p row rs d2 d3 st sc u us tr _ Hp HI HR HU];
    cbn [db]; auto.
  - now apply (Ins p row rs).
  - pose proof (Ins _ _ _ _ HI) as Inv2.
    apply update_request_inv in HU.
    destruct HU as [t [v [-> [-> [_ Hv]]]]]. simpl in *.
    apply Forall_forall. intros r Hr.
    apply in_map_iff in Hr. destruct Hr as [r0 [<- Hr0]].
    rewrite Forall_forall in Inv2. specialize (Inv2 r0 Hr0).
    unfold set_result. destruct (id r0 =? id row)%Z; [|exact Inv2]. simpl.
    destruct (valid_decision body p st sc Hp HR) as [[-> ->] | [-> [s [-> R]]]].
    + subst v. split; [discriminate|]. intros s Hs. discriminate Hs.
    + destruct Hv as [z [Hz ->]]. apply int4_num in Hz. subst z.
      split; [discriminate|]. intros s' Hs'. injection Hs' as <-. auto.
Qed.

(** The route never rejects: in every database it can produce no row has
    the status [rechazada], and a row that has a score is [aprobada] with
    a score of [60..100]. *)
Theorem reachable_never_rejected (d : Db) (r : Row) :
  reachable is_email d ->
  In r (table_rows d) ->
  status r <> "rechazada"
  /\ (forall s : Z, scoring r = Some s ->
                    status r = "aprobada" /\ (60 <= s <= 100)%Z).
Proof.
  intro R.
  assert (Inv : Forall (fun r => status r <> "rechazada"
                   /\ forall s, scoring r = Some s ->
                                status r = "aprobada" /\ (60 <= s <= 100)%Z)
                   (table_rows d)).
  { induction R as [|w body _ IH]; [apply Forall_nil | now apply never_rejected_step]. }
  intro Hr. rewrite Forall_forall in Inv. now apply Inv.
Qed.

(** The events a request logs. *)
Lemma apply_try_events (body : jsval) (w : World) :
  exists (evs : list Event) (adm : option bool),
    trace (snd (apply_try is_email body w)) = (trace w ++ evs)%list
    /\ events_of_run evs adm
    /\ forall b, adm = Some b ->
         exists p, safeParse is_email body = ParseSuccess p
                   /\ isAdmissible (as_income p) (Fin (amount p)) = b.
Proof.
  unfold apply_try, ensureTables. rewrite bind_unfold.
  destruct (hd_fault_cases (faults w)) as [F1 | [fs1 F1]].
  2:{ rewrite (pool_query_fault _ _ _ _ F1). exists [QueryEnsureTables], None.
      simpl. split; [reflexivity|]. split; [auto | discriminate]. }
  rewrite (pool_query_sent _ _ _ F1).
  destruct (safeParse is_email body) as [p | err] eqn:P.
  2:{ exists [QueryEnsureTables], None.
      simpl. split; [reflexivity|]. split; [auto | discriminate]. }
  rewrite bind_unfold.
  set (w1 := mkWorld _ _ _).
  assert (T1 : forall o (x : World), trace x = (trace w1 ++ [QueryInsert])%list ->
               exists (evs : list Event) (adm : option bool),
                 trace (snd (@pair (outcome Response) World o x)) = (trace w ++ evs)%list
                 /\ events_of_run evs adm
                 /\ forall b, adm = Some b ->
                      exists p0, ParseSuccess p = ParseSuccess p0
                                 /\ isAdmissible (as_income p0) (Fin (amount p0)) = b).
  { intros o x Hx. exists [QueryEnsureTables; QueryInsert], None.
    simpl. rewrite Hx. subst w1. simpl. rewrite <- app_assoc.
    split; [reflexivity|]. split; [auto | discriminate]. }
  destruct (hd_fault_cases (faults w1)) as [F2 | [fs2 F2]].
  2:{ rewrite (pool_query_fault _ _ _ _ F2). now apply T1. }
  rewrite (pool_query_sent _ _ _ F2).
  destruct (insert_request p (db w1)) as [[rs d2]|] eqn:I.
  2:{ now apply T1. }
  clear T1.
  set (w2 := mkWorld _ _ _).
  rewrite bind_unfold.
  destruct (decide_run p w2) as [st [sc [D R]]]. rewrite D.
  set (w3 := mkWorld _ _ _).
  destruct (insert_request_inv _ _ _ _ I) as [t [row [Ht [-> [Hd2 [Hid [Hst Hsc]]]]]]].
  cbn [hd_error]. rewrite bind_unfold. unfold ret at 1.
  rewrite bind_unfold.
  assert (T3 : forall o (x : World), trace x = (trace w3 ++ [QueryUpdate])%list ->
               exists (evs : list Event) (adm : option bool),
                 trace (snd (@pair (outcome Response) World o x)) = (trace w ++ evs)%list
                 /\ events_of_run evs adm
                 /\ forall b, adm = Some b ->
                      exists p0, ParseSuccess p = ParseSuccess p0
                                 /\ isAdmissible (as_income p0) (Fin (amount p0)) = b).
  { intros o x Hx.
    exists ([QueryEnsureTables; QueryInsert; CallIsAdmissible] ++
            (if isAdmissible (as_income p) (Fin (amount p))
             then [CallComputeScore] else []) ++ [QueryUpdate])%list,
           (Some (isAdmissible (as_income p) (Fin (amount p)))).
    simpl snd. rewrite Hx. subst w3 w2 w1. cbn [trace].
    split.
    - destruct (isAdmissible (as_income p) (Fin (amount p)));
        rewrite <- !app_assoc; reflexivity.
    - split.
      + destruct (isAdmissible (as_income p) (Fin (amount p))); reflexivity.
      + intros b Hb. injection Hb as <-. exists p. auto. }
  destruct (hd_fault_cases (faults w3)) as [F3 | [fs3 F3]].
  2:{ rewrite (pool_query_fault _ _ _ _ F3). now apply T3. }
  rewrite (pool_query_sent _ _ _ F3).
  destruct (update_request st sc (id row) (db w3)) as [[us d3]|] eqn:U.
  2:{ now apply T3. }
  destruct us as [|u us]; cbn [first].
  - unfold throw. now apply T3.
  - rewrite bind_unfold. unfold ret. now apply T3.
Qed.

(** A request logs, in this order, the first query, the [INSERT], the
    call of [isAdmissible] and the [UPDATE], or a prefix of them cut
    after a query; [computeScore] is called only between the last two,
    once, and only on a payload that passed the schema and is
    admissible: with an income > 0, an amount > 0 and a term > 0. *)
Theorem computeScore_called_only_when_admissible
    (body : jsval) (w : World) (resp : Response) (w' : World) :
  post_apply is_email body w = (resp, w') ->
  exists (evs : list Event) (adm : option bool),
    trace w' = (trace w ++ evs)%list
    /\ events_of_run evs adm
    /\ (In CallComputeScore evs ->
        exists (p : Payload) (i : Q),
          safeParse is_email body = ParseSuccess p
          /\ isAdmissible (as_income p) (Fin (amount p)) = true
          /\ income p = Some i /\ 0 < i /\ 0 < amount p /\ 0 < term_months p).
Proof.
  intro E.
  destruct (apply_try_events body w) as [evs [adm [T [Ev A]]]].
  exists evs, adm.
  assert (Tw : trace w' = trace (snd (apply_try is_email body w))).
  { unfold post_apply in E.
    destruct (apply_try is_email body w) as [[r|] w1]; injection E as _ <-;
      reflexivity. }
  rewrite Tw. split; [exact T|]. split; [exact Ev|].
  intro Hin.
  assert (Ht : adm = Some true).
  { destruct adm as [[|]|]; simpl in Ev; [reflexivity | |].
    - subst evs. simpl in Hin. intuition discriminate.
    - destruct Ev as [-> | ->]; simpl in Hin; intuition discriminate. }
  destruct (A true Ht) as [p [V Ad]].
  destruct (safeParse_valid is_email body p V) as [_ [_ [_ [Ha [Htm [_ Hi]]]]]].
  destruct (income p) as [i|] eqn:I.
  2:{ unfold as_income in Ad. rewrite I in Ad. discriminate Ad. }
  exists p, i. repeat split; auto.
Qed.

End RouteNever.

(** ** The answers of the two routes *)

Section RouteAnswers.

Import Server Spec Runs.
Local Open Scope string_scope.

Variable is_email : string -> bool.


(** The keys a refused object names are exactly those of the fields
    that fail their check, and there is at least one; a body that is not
    an object is refused as a whole. *)
Theorem safeParse_reports_failing_fields (body : jsval) (e : FlatError) :
  safeParse is_email body = ParseFailure e ->
  match body with
  | VObj fields =>
      exists keys,
        e = FieldErrors keys /\ keys <> []
        /\ forall k, In k keys <->
             (k = "rut" /\ z_string_min 3 (get_field "rut" fields) = None)
             \/ (k = "full_name" /\ z_string_min 3 (get_field "full_name" fields) = None)
             \/ (k = "email" /\ z_string_email is_email (get_field "email" fields) = None)
             \/ (k = "amount" /\ z_number_positive (get_field "amount" fields) = None)
             \/ (k = "term_months"
                 /\ z_number_int_positive (get_field "term_months" fields) = None)
             \/ (k = "income"
                 /\ z_number_positive_optional (get_field "income" fields) = None)
  | _ => e = FormErrors
  end.
Proof.
  unfold safeParse. destruct body as [ | | | | | |fields];
    try (intro H; injection H as <-; reflexivity).
  destruct (z_string_min 3 (get_field "rut" fields)) as [a|];
  destruct (z_string_min 3 (get_field "full_name" fields)) as [b|];
  destruct (z_string_email is_email (get_field "email" fields)) as [c|];
  destruct (z_number_positive (get_field "amount" fields)) as [d|];
  destruct (z_number_int_positive (get_field "term_months" fields)) as [f|];
  destruct (z_number_positive_optional (get_field "income" fields)) as [g|];
  try discriminate;
  intro H; injection H as <-; eexists; (split; [reflexivity|]);
  (split; [discriminate|]); intro k; simpl; split; intro K;
  repeat match goal with
         | H : _ \/ _ |- _ => destruct H
         | H : _ /\ _ |- _ => destruct H
         | H : False |- _ => destruct H
         | H : Some _ = None |- _ => discriminate H
         end; subst; tauto.
Qed.

Lemma get_field_other (k k' : string) (v : jsval) (fields : list (string * jsval)) :
  k <> k' -> get_field k ((k', v) :: fields) = get_field k fields.
Proof. intro H. simpl. apply String.eqb_neq in H. now rewrite H. Qed.

(** A key the schema does not know is ignored: it changes neither the
    verdict nor the payload. *)
Theorem safeParse_ignores_unknown_keys
    (k : string) (v : jsval) (fields : list (string * jsval)) :
  ~ In k ["rut"; "full_name"; "email"; "amount"; "term_months"; "income"] ->
  safeParse is_email (VObj ((k, v) :: fields)) = safeParse is_email (VObj fields).
Proof.
  intro H. unfold safeParse.
  rewrite !get_field_other; [reflexivity | | | | | |];
    intro E; apply H; subst k; simpl; tauto.
Qed.

Lemma z_string_min_inv (n : nat) (v : jsval) (x : string) :
  z_string_min n v = Some x -> v = VStr x /\ (n <= String.length x)%nat.
Proof.
  destruct v; try discriminate. simpl.
  destruct (n <=? String.length s)%nat eqn:L; [|discriminate].
  intro H. injection H as <-. split; [reflexivity | now apply Nat.leb_le].
Qed.

Lemma z_number_positive_inv (v : jsval) (x : Q) :
  z_number_positive v = Some x -> v = VNum x /\ 0 < x.
Proof.
  destruct v; try discriminate. simpl.
  destruct (Qis_pos q) eqn:L; [|discriminate].
  intro H. injection H as <-. split; [reflexivity | now apply Qis_pos_true].
Qed.

(** The payload the route decides on is made of the six fields of the
    body and of nothing else, each as the schema wants it: texts of at
    least three characters, an address that passes, an amount > 0, a
    term that is a positive integer, and an income that is absent from
    the body or is a number > 0. *)
Theorem accepted_payload_is_valid (body : jsval) (p : Payload) :
  safeParse is_email body = ParseSuccess p ->
  exists fields,
    body = VObj fields
    /\ get_field "rut" fields = VStr (rut p) /\ (3 <= String.length (rut p))%nat
    /\ get_field "full_name" fields = VStr (full_name p)
    /\ (3 <= String.length (full_name p))%nat
    /\ get_field "email" fields = VStr (email p) /\ is_email (email p) = true
    /\ get_field "amount" fields = VNum (amount p) /\ 0 < amount p
    /\ get_field "term_months" fields = VNum (term_months p)
    /\ 0 < term_months p /\ Qis_int (term_months p) = true
    /\ match income p with
       | None => get_field "income" fields = VUndef
       | Some i => get_field "income" fields = VNum i /\ 0 < i
       end.
Proof.
  unfold safeParse. destruct body as [ | | | | | |fields]; try discriminate.
  destruct (z_string_min 3 (get_field "rut" fields)) as [a|] eqn:Ea;
    [|discriminate].
  destruct (z_string_min 3 (get_field "full_name" fields)) as [b|] eqn:Eb;
    [|discriminate].
  destruct (z_string_email is_email (get_field "email" fields)) as [c|] eqn:Ec;
    [|discriminate].
  destruct (z_number_positive (get_field "amount" fields)) as [d|] eqn:Ed;
    [|discriminate].
  destruct (z_number_int_positive (get_field "term_months" fields)) as [e|] eqn:Ee;
    [|discriminate].
  destruct (z_number_positive_optional (get_field "income" fields)) as [f|] eqn:Ef;
    [|discriminate].
  intro H. injection H as <-. cbn [rut full_name email amount term_months income].
  exists fields. split; [reflexivity|].
  apply z_string_min_inv in Ea. destruct Ea as [-> La].
  apply z_string_min_inv in Eb. destruct Eb as [-> Lb].
  apply z_number_positive_inv in Ed. destruct Ed as [-> Ld].
  repeat (split; [reflexivity || assumption|]).
  unfold z_string_email in Ec. destruct (get_field "email" fields); try discriminate.
  destruct (is_email s) eqn:L; [|discriminate]. injection Ec as <-.
  split; [reflexivity|]. split; [exact L|].
  split; [reflexivity|]. split; [exact Ld|].
  unfold z_number_int_positive in Ee.
  destruct (get_field "term_months" fields); try discriminate.
  destruct (Qis_int q && Qis_pos q) eqn:L2; [|discriminate].
  injection Ee as <-. apply andb_true_iff in L2. destruct L2 as [I P].
  apply Qis_pos_true in P.
  split; [reflexivity|]. split; [exact P|]. split; [exact I|].
  unfold z_number_positive_optional in Ef.
  destruct (get_field "income" fields) eqn:Gi;
    try (injection Ef as <-; reflexivity); try discriminate Ef.
  simpl in Ef. destruct (Qis_pos q0) eqn:L3; [|discriminate Ef].
  simpl in Ef. injection Ef as <-. split; [reflexivity | now apply Qis_pos_true].
Qed.

End RouteAnswers.

Section StatusAnswers.

Import Server Spec Runs.
Local Open Scope string_scope.

Variable is_email : string -> bool.
Variable int4in : string -> option Z.

Lemma pool_query_read_fault {A : Type} (q : Db -> option A) (w : World) (fs : list bool) :
  faults w = true :: fs ->
  pool_query_read q w = (Thrown, mkWorld (db w) fs (trace w)).
Proof. intro F. unfold pool_query_read. rewrite F. reflexivity. Qed.

Lemma pool_query_read_sent {A : Type} (q : Db -> option A) (w : World) :
  hd false (faults w) = false ->
  pool_query_read q w
  = match q (db w) with
    | Some a => (Ok a, mkWorld (db w) (tl (faults w)) (trace w))
    | None => (Thrown, mkWorld (db w) (tl (faults w)) (trace w))
    end.
Proof.
  intro F. unfold pool_query_read.
  destruct (faults w) as [|[|] fs]; [reflexivity | discriminate | reflexivity].
Qed.

Lemma no_fault_2_hd (w : World) :
  no_fault 2 w <->
  hd false (faults w) = false /\ hd false (tl (faults w)) = false.
Proof.
  unfold no_fault.
  destruct (faults w) as [|[|] [|[|] fs]]; simpl; split; intro H;
    try destruct H; auto; discriminate.
Qed.

Lemma get_status_cases (id_param : string) (w : World) (resp : Response) (w' : World) :
  get_status int4in id_param w = (resp, w') ->
  table_rows (db w') = table_rows (db w)
  /\ trace w' = (trace w ++ [QueryEnsureTables])%list
  /\ (no_fault 2 w ->
      resp = match int4in id_param with
             | None => mkResponse 500 InternalError
             | Some i =>
                 match filter (fun r => (id r =? i)%Z) (table_rows (db w)) with
                 | [] => mkResponse 404 (Document (VObj [("error", VStr "not_found")]))
                 | r :: _ => mkResponse 200 (Document (json_of_row r))
                 end
             end)
  /\ (~ no_fault 2 w -> resp = mkResponse 500 InternalError).
Proof.
  unfold get_status, status_try, ensureTables. rewrite bind_unfold.
  destruct (hd_fault_cases (faults w)) as [F1 | [fs1 F1]].
  2:{ rewrite (pool_query_fault _ _ _ _ F1). intro E. injection E as <- <-.
      cbn [db trace]. repeat split; auto.
      intro NF. apply no_fault_2_hd in NF. destruct NF as [H _].
      rewrite F1 in H. discriminate H. }
  rewrite (pool_query_sent _ _ _ F1). rewrite bind_unfold.
  set (w1 := mkWorld _ _ _).
  assert (R1 : table_rows (db w1) = table_rows (db w)) by apply create_table_rows.
  destruct (hd_fault_cases (faults w1)) as [F2 | [fs2 F2]].
  2:{ rewrite (pool_query_read_fault _ _ _ F2). intro E. injection E as <- <-.
      cbn [db trace]. repeat split; auto.
      intro NF. apply no_fault_2_hd in NF. destruct NF as [_ H].
      subst w1. cbn [faults] in F2. rewrite F2 in H. discriminate H. }
  rewrite (pool_query_read_sent _ _ F2).
  assert (NF : no_fault 2 w) by (apply no_fault_2_hd; auto).
  assert (S : select_status int4in id_param (db w1)
              = option_map (fun i => filter (fun r => (id r =? i)%Z) (table_rows (db w)))
                           (int4in id_param)).
  { rewrite <- R1. subst w1. cbn [db].
    destruct (db w) as [t|]; simpl; destruct (int4in id_param); reflexivity. }
  rewrite S. destruct (int4in id_param) as [i|]; simpl.
  - destruct (filter (fun r => (id r =? i)%Z) (table_rows (db w))) as [|r rs];
      intro E; injection E as <- <-; cbn [db trace]; repeat split; auto;
      intro H; contradiction.
  - intro E. injection E as <- <-. cbn [db trace]. repeat split; auto.
Qed.

(** What was answered 201 can be read back: on a well-formed table, the
    record answered by [POST /loans/apply] is the one [GET
    /loans/:id/status] answers with status 200 for its identifier, as
    long as the table is the same and the two queries go through. *)
Theorem status_after_apply
    (body : jsval) (w : World) (resp : Response) (w' : World) :
  db_wf (db w) ->
  post_apply is_email body w = (resp, w') ->
  http_status resp = 201%Z ->
  exists r : Row,
    json resp = Document (json_of_row r)
    /\ In r (table_rows (db w'))
    /\ forall (id_param : string) (w2 : World),
         int4in id_param = Some (id r) ->
         db w2 = db w' ->
         no_fault 2 w2 ->
         fst (get_status int4in id_param w2) = mkResponse 200 (Document (json_of_row r)).
Proof.
  intros W E C.
  destruct (post_apply_frame is_email body w resp w' W E)
    as [_ [new [Er [Hlt Hc]]]].
  destruct Hc as [[C' _] | [[C' _] | [_ [r [-> [_ J]]]]]]; try congruence.
  exists r. split; [exact J|]. split.
  { rewrite Er. apply in_or_app. right. now left. }
  intros id_param w2 P D NF.
  destruct (get_status int4in id_param w2) as [resp2 w2'] eqn:G.
  destruct (get_status_cases id_param w2 resp2 w2' G) as [_ [_ [A _]]].
  specialize (A NF). rewrite P, D, Er in A.
  pose proof (Forall_inv Hlt) as Hx. simpl in Hx.
  rewrite filter_app in A.
  rewrite (filter_id_other (id r) (table_rows (db w))) in A.
  2:{ eapply Forall_impl; [|exact Hx]. simpl. intros o Ho. lia. }
  simpl in A. rewrite Z.eqb_refl in A. simpl. exact A.
Qed.

(** An identifier that no row has is answered 404: in particular, on a
    well-formed table, every identifier at or above the [SERIAL]
    counter. *)
Theorem get_status_not_found (id_param : string) (i : Z) (w : World) :
  int4in id_param = Some i ->
  no_fault 2 w ->
  (http_status (fst (get_status int4in id_param w)) = 404%Z
   <-> forall r, In r (table_rows (db w)) -> id r <> i).
Proof.
  intros P NF.
  destruct (get_status int4in id_param w) as [resp w'] eqn:G.
  destruct (get_status_cases id_param w resp w' G) as [_ [_ [A _]]].
  specialize (A NF). rewrite P in A. simpl.
  destruct (filter (fun r => (id r =? i)%Z) (table_rows (db w))) as [|r rs] eqn:F;
    subst resp; simpl.
  - split; [intros _ | reflexivity]. intros r Hr E.
    assert (H : In r (filter (fun r => (id r =? i)%Z) (table_rows (db w)))).
    { apply filter_In. split; [exact Hr | now apply Z.eqb_eq]. }
    rewrite F in H. exact H.
  - split; [discriminate|]. intro H. exfalso.
    assert (K : In r (filter (fun r => (id r =? i)%Z) (table_rows (db w)))).
    { rewrite F. now left. }
    apply filter_In in K. destruct K as [K1 K2]. apply Z.eqb_eq in K2.
    exact (H r K1 K2).
Qed.

(** [GET /loans/:id/status] only reads: it sends the first query and
    leaves the rows as they are.  When its two queries go through it
    answers 500 for an identifier that PostgreSQL does not read as an
    integer, 404 [not_found] when no row has the identifier, and
    otherwise 200 with the identifier, status and score of the row; when
    a query fails it answers 500.  It answers nothing else. *)
Theorem get_status_answer (id_param : string) (w : World) (resp : Response) (w' : World) :
  get_status int4in id_param w = (resp, w') ->
  table_rows (db w') = table_rows (db w)
  /\ trace w' = (trace w ++ [QueryEnsureTables])%list
  /\ (no_fault 2 w ->
      resp = match int4in id_param with
             | None => mkResponse 500 InternalError
             | Some i =>
                 match filter (fun r => (id r =? i)%Z) (table_rows (db w)) with
                 | [] => mkResponse 404 (Document (VObj [("error", VStr "not_found")]))
                 | r :: _ => mkResponse 200 (Document (json_of_row r))
                 end
             end)
  /\ (~ no_fault 2 w -> resp = mkResponse 500 InternalError)
  /\ (http_status resp = 200%Z \/ http_status resp = 404%Z \/ http_status resp = 500%Z).
Proof.
  intro G. destruct (get_status_cases id_param w resp w' G) as [Rw [Tr [A B]]].
  split; [exact Rw|]. split; [exact Tr|]. split; [exact A|]. split; [exact B|].
  unfold no_fault in A, B.
  destruct (forallb negb (firstn 2 (faults w))) eqn:F.
  - rewrite (A eq_refl).
    destruct (int4in id_param) as [i|]; [|right; right; reflexivity].
    destruct (filter (fun r => (id r =? i)%Z) (table_rows (db w))).
    + right. left. reflexivity.
    + left. reflexivity.
  - rewrite B by discriminate. right. right. reflexivity.
Qed.

End StatusAnswers.

(** ** The further properties on concrete requests *)

Section MoreConcreteRuns.

Import Server Spec Runs Sample.
Local Open Scope string_scope.

Lemma post_apply_appends_at_most_one_row_witness :
  exists new : list Row,
    table_rows (db (snd (post_apply sample_is_email body_scenario_A fresh)))
    = (table_rows (db fresh) ++ new)%list
    /\ Forall (fun r => Forall (fun o => (id o < id r)%Z) (table_rows (db fresh))) new
    /\ ((http_status (fst (post_apply sample_is_email body_scenario_A fresh)) = 400%Z
         /\ new = [])
        \/ (http_status (fst (post_apply sample_is_email body_scenario_A fresh)) = 500%Z
            /\ (new = []
                \/ exists r, new = [r] /\ status r = "pendiente" /\ scoring r = None))
        \/ (http_status (fst (post_apply sample_is_email body_scenario_A fresh)) = 201%Z
            /\ exists r, new = [r] /\ status r <> "pendiente"
                         /\ json (fst (post_apply sample_is_email body_scenario_A fresh))
                            = Document (json_of_row r))).
Proof.
  apply (post_apply_appends_at_most_one_row sample_is_email body_scenario_A fresh
           (fst (post_apply sample_is_email body_scenario_A fresh))
           (snd (post_apply sample_is_email body_scenario_A fresh)));
    [apply reachable_init | reflexivity].
Defined.

Lemma reachable_ids_unique_witness :
  NoDup (map id (table_rows (db (snd (post_apply sample_is_email body_scenario_A fresh)))))
  /\ Forall (fun r => (1 <= id r)%Z)
            (table_rows (db (snd (post_apply sample_is_email body_scenario_A fresh)))).
Proof.
  apply (reachable_ids_unique sample_is_email).
  apply (reachable_post sample_is_email fresh body_scenario_A).
  apply reachable_init.
Defined.

Lemma reachable_never_rejected_witness :
  status row_scenario_A <> "rechazada"
  /\ (forall s : Z, scoring row_scenario_A = Some s ->
                    status row_scenario_A = "aprobada" /\ (60 <= s <= 100)%Z).
Proof.
  apply (reachable_never_rejected sample_is_email
           (db (snd (post_apply sample_is_email body_scenario_A fresh)))
           row_scenario_A).
  - apply (reachable_post sample_is_email fresh body_scenario_A).
    apply reachable_init.
  - left. reflexivity.
Defined.

Lemma computeScore_called_only_when_admissible_witness :
  exists (evs : list Event) (adm : option bool),
    trace (snd (post_apply sample_is_email body_scenario_A fresh))
    = (trace fresh ++ evs)%list
    /\ events_of_run evs adm
    /\ (In CallComputeScore evs ->
        exists (p : Payload) (i : Q),
          safeParse sample_is_email body_scenario_A = ParseSuccess p
          /\ isAdmissible (as_income p) (Fin (amount p)) = true
          /\ income p = Some i /\ 0 < i /\ 0 < amount p /\ 0 < term_months p).
Proof.
  apply (computeScore_called_only_when_admissible sample_is_email body_scenario_A fresh
           (fst (post_apply sample_is_email body_scenario_A fresh))).
  reflexivity.
Defined.


Lemma safeParse_reports_failing_fields_witness :
  exists keys,
    FieldErrors ["income"] = FieldErrors keys /\ keys <> []
    /\ forall k, In k keys <->
         (k = "rut" /\ z_string_min 3 (get_field "rut" (sample_fields [("income", VNum 0)])) = None)
         \/ (k = "full_name"
             /\ z_string_min 3 (get_field "full_name" (sample_fields [("income", VNum 0)])) = None)
         \/ (k = "email"
             /\ z_string_email sample_is_email
                  (get_field "email" (sample_fields [("income", VNum 0)])) = None)
         \/ (k = "amount"
             /\ z_number_positive (get_field "amount" (sample_fields [("income", VNum 0)])) = None)
         \/ (k = "term_months"
             /\ z_number_int_positive
                  (get_field "term_months" (sample_fields [("income", VNum 0)])) = None)
         \/ (k = "income"
             /\ z_number_positive_optional
                  (get_field "income" (sample_fields [("income", VNum 0)])) = None).
Proof.
  apply (safeParse_reports_failing_fields sample_is_email body_income_zero
           (FieldErrors ["income"])).
  reflexivity.
Defined.

Lemma safeParse_ignores_unknown_keys_witness :
  safeParse sample_is_email (VObj (("phone", VStr "+56 9 1234 5678") :: sample_fields []))
  = safeParse sample_is_email (VObj (sample_fields [])).
Proof.
  apply (safeParse_ignores_unknown_keys sample_is_email "phone").
  simpl. intros [H | [H | [H | [H | [H | [H | []]]]]]]; discriminate H.
Defined.

Lemma accepted_payload_is_valid_witness :
  exists fields,
    body_scenario_A = VObj fields
    /\ get_field "rut" fields = VStr "11.111.111-1"
    /\ (3 <= String.length "11.111.111-1")%nat
    /\ get_field "full_name" fields = VStr "Ana Rojas"
    /\ (3 <= String.length "Ana Rojas")%nat
    /\ get_field "email" fields = VStr "ana@example.cl"
    /\ sample_is_email "ana@example.cl" = true
    /\ get_field "amount" fields = VNum 1500000 /\ 0 < 1500000
    /\ get_field "term_months" fields = VNum 24
    /\ 0 < 24 /\ Qis_int 24 = true
    /\ (get_field "income" fields = VNum 1000000 /\ 0 < 1000000).
Proof.
  apply (accepted_payload_is_valid sample_is_email body_scenario_A
           (mkPayload "11.111.111-1" "Ana Rojas" "ana@example.cl" 1500000 24
                      (Some 1000000))).
  reflexivity.
Defined.

Lemma get_status_answer_witness :
  table_rows (db (snd (get_status sample_int4in "7" fresh))) = table_rows (db fresh)
  /\ trace (snd (get_status sample_int4in "7" fresh))
     = (trace fresh ++ [QueryEnsureTables])%list
  /\ (no_fault 2 fresh ->
      fst (get_status sample_int4in "7" fresh)
      = match sample_int4in "7" with
        | None => mkResponse 500 InternalError
        | Some i =>
            match filter (fun r => (id r =? i)%Z) (table_rows (db fresh)) with
            | [] => mkResponse 404 (Document (VObj [("error", VStr "not_found")]))
            | r :: _ => mkResponse 200 (Document (json_of_row r))
            end
        end)
  /\ (~ no_fault 2 fresh ->
      fst (get_status sample_int4in "7" fresh) = mkResponse 500 InternalError)
  /\ (http_status (fst (get_status sample_int4in "7" fresh)) = 200%Z
      \/ http_status (fst (get_status sample_int4in "7" fresh)) = 404%Z
      \/ http_status (fst (get_status sample_int4in "7" fresh)) = 500%Z).
Proof.
  apply (get_status_answer sample_int4in "7" fresh
           (fst (get_status sample_int4in "7" fresh))
           (snd (get_status sample_int4in "7" fresh))).
  reflexivity.
Defined.

Lemma status_after_apply_witness :
  exists r : Row,
    json (fst (post_apply sample_is_email body_scenario_A fresh))
    = Document (json_of_row r)
    /\ In r (table_rows (db (snd (post_apply sample_is_email body_scenario_A fresh))))
    /\ forall (id_param : string) (w2 : World),
         sample_int4in id_param = Some (id r) ->
         db w2 = db (snd (post_apply sample_is_email body_scenario_A fresh)) ->
         no_fault 2 w2 ->
         fst (get_status sample_int4in id_param w2)
         = mkResponse 200 (Document (json_of_row r)).
Proof.
  apply (status_after_apply sample_is_email sample_int4in body_scenario_A fresh
           (fst (post_apply sample_is_email body_scenario_A fresh))
           (snd (post_apply sample_is_email body_scenario_A fresh)));
    [exact I | reflexivity | reflexivity].
Defined.

Lemma get_status_not_found_witness :
  http_status (fst (get_status sample_int4in "7"
                      (snd (post_apply sample_is_email body_scenario_A fresh)))) = 404%Z
  <-> forall r,
        In r (table_rows (db (snd (post_apply sample_is_email body_scenario_A fresh)))) ->
        id r <> 7%Z.
Proof.
  apply (get_status_not_found sample_int4in "7" 7
           (snd (post_apply sample_is_email body_scenario_A fresh)));
    reflexivity.
Defined.

(** After scenario A, the record is read back under its identifier. *)
Example scenario_A_read_back :
  fst (get_status sample_int4in "1"
         (snd (post_apply sample_is_email body_scenario_A fresh)))
  = mkResponse 200 (Document (VObj [("id", VNum 1); ("status", VStr "aprobada");
                                    ("scoring", VNum 76)])).
Proof. reflexivity. Qed.

End MoreConcreteRuns.

(** ** The request form *)

Section FormFacts.

Import Server Spec Runs View.
Local Open Scope string_scope.

Variable trim : string -> string.
Variable Number : string -> jsnum.
Variable email_shape : string -> bool.
Variable String_of : jsval -> string.
Variable is_email : string -> bool.

Lemma ui_invariant_step (u u' : UI) :
  ui_invariant trim Number email_shape u ->
  ui_step_to trim Number email_shape String_of is_email u u' ->
  ui_invariant trim Number email_shape u'.
Proof.
  intros [S [P1 [P2 [Sub Inf]]]] T. unfold ui_invariant.
  destruct T as [rut fullName email phone income accept H1 | amount term H2
                 | HB | HL HN | HL HS | body w HI | body HI].
  - cbn [set_data ui_step ui_data ui_submitting ui_inflight]. rewrite H1.
    split; [lia|]. split; [lia|]. split; [discriminate|]. split; assumption.
  - cbn [set_data ui_step ui_data ui_submitting ui_inflight data_accept].
    rewrite H2 in *.
    split; [lia|]. split; [|split; [discriminate|split; assumption]].
    intros _. destruct (P1 ltac:(lia)) as [Q1 Q2]. split; [|exact Q2].
    exact Q1.
  - unfold back_disabled in HB. apply Z.eqb_neq in HB.
    cbn [on_back set_step ui_step ui_data ui_submitting ui_inflight].
    assert (L : (1 <? ui_step u)%Z = true) by (apply Z.ltb_lt; lia).
    rewrite L.
    split; [lia|]. split; [|split; [lia|split; assumption]].
    intros _. apply P1. lia.
  - unfold next_disabled in HN.
    cbn [on_next set_step ui_step ui_data ui_submitting ui_inflight].
    rewrite HL. apply Z.ltb_lt in HL.
    apply orb_false_iff in HN. destruct HN as [N1 N2].
    assert (C : ui_step u = 1%Z \/ ui_step u = 2%Z) by lia.
    destruct C as [C | C]; rewrite C in *; simpl in N1, N2.
    + apply orb_false_iff in N1. destruct N1 as [A B].
      apply negb_false_iff in A. apply negb_false_iff in B.
      split; [lia|]. split; [auto|]. split; [discriminate|]. split; assumption.
    + apply negb_false_iff in N2.
      split; [lia|]. split; [intros _; apply P1; lia|].
      split; [auto|]. split; assumption.
  - unfold submit_disabled in HS. apply Z.ltb_ge in HL.
    apply orb_false_iff in HS. destruct HS as [A B]. apply negb_false_iff in A.
    assert (C : ui_step u = 3%Z) by lia.
    cbn [on_submit ui_step ui_data ui_submitting ui_inflight].
    split; [exact S|]. split; [exact P1|]. split; [exact P2|]. split.
    + split; [discriminate | reflexivity].
    + intros body E. injection E as <-. exists (ui_data u).
      destruct (P1 ltac:(lia)) as [Q1 Q2]. auto.
  - assert (F : ui_invariant trim Number email_shape (on_failure u)).
    { unfold ui_invariant, on_failure.
      cbn [ui_step ui_data ui_submitting ui_inflight].
      split; [exact S|]. split; [exact P1|]. split; [exact P2|]. split.
      - split; [discriminate | intro K; now contradiction K].
      - discriminate. }
    unfold on_response.
    destruct (ok (fst (post_apply is_email body w))); [|exact F].
    destruct (applied_field _ "id"); [|exact F].
    destruct (applied_field _ "status"); [|exact F].
    destruct (applied_field _ "scoring"); [|exact F].
    cbn [ui_step ui_data ui_submitting ui_inflight].
    split; [exact S|]. split; [exact P1|]. split; [exact P2|]. split.
    + split; [discriminate | intro K; now contradiction K].
    + discriminate.
  - unfold on_failure. cbn [ui_step ui_data ui_submitting ui_inflight].
    split; [exact S|]. split; [exact P1|]. split; [exact P2|]. split.
    + split; [discriminate | intro K; now contradiction K].
    + discriminate.
Qed.

Lemma ui_reachable_invariant (u : UI) :
  ui_reachable trim Number email_shape String_of is_email u ->
  ui_invariant trim Number email_shape u.
Proof.
  induction 1 as [|u u' _ IH T].
  - unfold ui_invariant, initial. simpl.
    repeat split; try lia; try discriminate; try (intro K; now contradiction K).
  - exact (ui_invariant_step u u' IH T).
Qed.

(** The form is gated: the step is 1, 2 or 3; it is past step 1 only
    with personal data that passed [canNext1] and the terms accepted, and
    on step 3 only with loan data that passed [canNext2]. *)
Theorem form_steps_are_gated (u : UI) :
  ui_reachable trim Number email_shape String_of is_email u ->
  (1 <= ui_step u <= 3)%Z
  /\ ((2 <= ui_step u)%Z ->
      canNext1 trim Number email_shape (ui_data u) = true
      /\ data_accept (ui_data u) = true)
  /\ (ui_step u = 3%Z -> canNext2 Number (ui_data u) = true).
Proof.
  intro R. destruct (ui_reachable_invariant u R) as [S [P1 [P2 _]]]. auto.
Qed.

Lemma positive_number_field (x : jsnum) :
  js_lt (num 0) x = true ->
  json_of_number x = VNull \/ exists q, json_of_number x = VNum q /\ 0 < q.
Proof.
  destruct x as [q | | |]; simpl; intro H; try (left; reflexivity).
  right. exists q. split; [reflexivity|].
  apply negb_true_iff, Qle_bool_false in H. exact H.
Qed.

(** The form awaits at most one request at a time: while one is awaited
    [submitting] is on and the button is disabled.  The request awaited
    carries texts that are not empty once trimmed, and an amount, a term
    and an income that are each a number > 0 (or [null], when [Number]
    gave an infinity); the income is never left out. *)
Theorem form_requests (u : UI) (body : jsval) :
  ui_reachable trim Number email_shape String_of is_email u ->
  ui_inflight u = Some body ->
  ui_submitting u = true
  /\ submit_disabled u = true
  /\ exists fields rut_s name_s,
       body = VObj fields
       /\ get_field "rut" fields = VStr rut_s /\ nonempty rut_s = true
       /\ get_field "full_name" fields = VStr name_s /\ nonempty name_s = true
       /\ forall k, In k ["amount"; "term_months"; "income"] ->
            get_field k fields = VNull
            \/ exists q, get_field k fields = VNum q /\ 0 < q.
Proof.
  intros R HI. destruct (ui_reachable_invariant u R) as [_ [_ [_ [Sub Inf]]]].
  assert (Sb : ui_submitting u = true) by (apply Sub; congruence).
  split; [exact Sb|]. split.
  { unfold submit_disabled. rewrite Sb. apply orb_true_r. }
  destruct (Inf body HI) as [d [-> [C1 [C2 _]]]].
  unfold canNext1 in C1. unfold canNext2 in C2.
  repeat (apply andb_true_iff in C1; destruct C1 as [C1 ?]).
  apply andb_true_iff in C2. destruct C2 as [A T].
  eexists. eexists. eexists. split; [reflexivity|].
  split; [reflexivity|]. split; [assumption|].
  split; [reflexivity|]. split; [assumption|].
  intros k [<- | [<- | [<- | []]]]; cbn; now apply positive_number_field.
Qed.

(** An answer the form takes for [ok] is the record of a decided
    application: [inadmisible] without a score, or [aprobada] with a
    score of [60..100]. *)
Lemma ok_answer (body : jsval) (w : World) :
  ok (fst (post_apply is_email body w)) = true ->
  exists (rid : Z) (st : string) (v : option Z),
    json (fst (post_apply is_email body w))
    = Document (VObj [("id", VNum (inject_Z rid)); ("status", VStr st);
                      ("scoring", json_of_scoring v)])
    /\ ((st = "inadmisible" /\ v = None)
        \/ (st = "aprobada" /\ exists s : Z, v = Some s /\ (60 <= s <= 100)%Z)).
Proof.
  destruct (post_apply is_email body w) as [resp w'] eqn:E. simpl fst.
  apply post_apply_run in E.
  destruct E as [fs Hf | err Hf Hp | p fs Hf Hp _ | p row rs d2 st sc fs tr Hp HI _ _
                 | p row rs d2 d3 st sc u us tr _ Hp HI HR HU];
    try discriminate.
  intros _. cbn [json].
  apply update_request_inv in HU.
  destruct HU as [t [v [-> [-> [Eu Hv]]]]].
  assert (Hu : In u (filter (fun r => (id r =? id row)%Z)
                            (map (set_result st v (id row)) (rows t)))).
  { rewrite <- Eu. now left. }
  apply updated_row in Hu. destruct Hu as [_ [Hst [Hsc _]]].
  exists (id row), st, v. rewrite Hst, Hsc. split; [reflexivity|].
  destruct (valid_decision is_email body p st sc Hp HR) as [[-> ->] | [-> [s [-> R]]]].
  - left. auto.
  - right. split; [reflexivity|]. destruct Hv as [z [Hz ->]].
    apply int4_num in Hz. subst z. exists s. auto.
Qed.

(** What the form can show, whatever the server holds and whatever is
    typed: no status yet, with no identifier and no score; the status
    [inadmisible] with an identifier and no score; or the status
    [aprobada] with an identifier and a score of [60..100].  It never
    shows [rechazada] and never [pendiente]. *)
Theorem form_shows_decided_status (u : UI) :
  ui_reachable trim Number email_shape String_of is_email u ->
  (ui_status u = VNull /\ ui_score u = VNull /\ ui_createdId u = None)
  \/ (ui_status u = VStr "inadmisible" /\ ui_score u = VNull
      /\ ui_createdId u <> None)
  \/ (ui_status u = VStr "aprobada" /\ ui_createdId u <> None
      /\ exists s : Z, ui_score u = VNum (inject_Z s) /\ (60 <= s <= 100)%Z).
Proof.
  induction 1 as [|u u' _ IH T]; [left; repeat split|].
  destruct T as [rut fullName email phone income accept H1 | amount term H2
                 | HB | HL HN | HL HS | body w HI | body HI];
    try exact IH.
  unfold on_response.
  destruct (ok (fst (post_apply is_email body w))) eqn:O; [|exact IH].
  destruct (ok_answer body w O) as [rid [st [v [J D]]]].
  rewrite J. cbn.
  destruct D as [[-> ->] | [-> [s [-> R]]]].
  - right. left. repeat split. discriminate.
  - right. right. repeat split; [discriminate|]. exists s. auto.
Qed.

End FormFacts.

Section FormRuns.

Import Server Spec Runs Sample View.
Local Open Scope string_scope.

Lemma sample_submitted_reachable :
  ui_reachable sample_trim sample_Number sample_is_email sample_String sample_is_email
    sample_submitted.
Proof.
  unfold sample_submitted.
  eapply ui_reachable_step; [|apply ClickSubmit; reflexivity].
  eapply ui_reachable_step; [|apply ClickNext; reflexivity].
  eapply ui_reachable_step;
    [|apply (EditLoan sample_trim sample_Number sample_is_email sample_String
               sample_is_email _ "1500000" "24"); reflexivity].
  eapply ui_reachable_step; [|apply ClickNext; reflexivity].
  eapply ui_reachable_step; [apply ui_reachable_initial|].
  apply (EditPersonal sample_trim sample_Number sample_is_email sample_String
           sample_is_email initial "11.111.111-1" "Ana Rojas" "ana@example.cl"
           "+56 9 1234 5678" "1000000" true).
  reflexivity.
Defined.

Lemma sample_answered_reachable :
  ui_reachable sample_trim sample_Number sample_is_email sample_String sample_is_email
    (sample_answered sample_is_email).
Proof.
  eapply ui_reachable_step; [exact sample_submitted_reachable|].
  apply (Answered sample_trim sample_Number sample_is_email sample_String
           sample_is_email sample_submitted sample_request (mkWorld None [] [])).
  reflexivity.
Defined.

Lemma form_steps_are_gated_witness :
  (1 <= ui_step sample_submitted <= 3)%Z
  /\ ((2 <= ui_step sample_submitted)%Z ->
      canNext1 sample_trim sample_Number sample_is_email (ui_data sample_submitted) = true
      /\ data_accept (ui_data sample_submitted) = true)
  /\ (ui_step sample_submitted = 3%Z ->
      canNext2 sample_Number (ui_data sample_submitted) = true).
Proof.
  apply (form_steps_are_gated sample_trim sample_Number sample_is_email sample_String
           sample_is_email).
  exact sample_submitted_reachable.
Defined.

Lemma form_requests_witness :
  ui_submitting sample_submitted = true
  /\ submit_disabled sample_submitted = true
  /\ exists fields rut_s name_s,
       sample_request = VObj fields
       /\ get_field "rut" fields = VStr rut_s /\ nonempty rut_s = true
       /\ get_field "full_name" fields = VStr name_s /\ nonempty name_s = true
       /\ forall k, In k ["amount"; "term_months"; "income"] ->
            get_field k fields = VNull
            \/ exists q, get_field k fields = VNum q /\ 0 < q.
Proof.
  apply (form_requests sample_trim sample_Number sample_is_email sample_String
           sample_is_email sample_submitted sample_request).
  - exact sample_submitted_reachable.
  - reflexivity.
Defined.

Lemma form_shows_decided_status_witness :
  (ui_status (sample_answered sample_is_email) = VNull
   /\ ui_score (sample_answered sample_is_email) = VNull
   /\ ui_createdId (sample_answered sample_is_email) = None)
  \/ (ui_status (sample_answered sample_is_email) = VStr "inadmisible"
      /\ ui_score (sample_answered sample_is_email) = VNull
      /\ ui_createdId (sample_answered sample_is_email) <> None)
  \/ (ui_status (sample_answered sample_is_email) = VStr "aprobada"
      /\ ui_createdId (sample_answered sample_is_email) <> None
      /\ exists s : Z, ui_score (sample_answered sample_is_email) = VNum (inject_Z s)
                       /\ (60 <= s <= 100)%Z).
Proof.
  apply (form_shows_decided_status sample_trim sample_Number sample_is_email
           sample_String sample_is_email).
  exact sample_answered_reachable.
Defined.

(** The run ends on scenario A: registered under identifier 1, approved
    with a score of 76. *)
Example sample_form_run :
  ui_createdId (sample_answered sample_is_email) = Some "1"
  /\ ui_status (sample_answered sample_is_email) = VStr "aprobada"
  /\ ui_score (sample_answered sample_is_email) = VNum 76
  /\ ui_submitting (sample_answered sample_is_email) = false.
Proof. repeat split. Qed.

End FormRuns.

(** ** Payloads the table does not take *)

Section Unstorable.

Import Server Spec Runs Sample.
Local Open Scope string_scope.

Variable is_email : string -> bool.

Lemma numeric_14_2_too_small (q : Q) :
  0 < q -> q < 1 # 200 -> exists a, numeric_14_2 q = Some a /\ Qis_pos a = false.
Proof.
  intros H0 H1. unfold numeric_14_2.
  assert (L : Qle_bool 0 q = true) by (apply Qle_bool_iff; lra).
  rewrite L.
  assert (R : Qround_half_up (q * 100) = 0%Z).
  { unfold Qround_half_up.
    pose proof (Qfloor_le (q * 100 + (1 # 2))) as A.
    pose proof (Qlt_floor (q * 100 + (1 # 2))) as B.
    assert (A' : (0 <= Qfloor (q * 100 + (1 # 2)))%Z).
    { rewrite <- (Qfloor_Z 0). apply Qfloor_resp_le. change (inject_Z 0) with 0. lra. }
    assert (B' : (Qfloor (q * 100 + (1 # 2)) < 1)%Z).
    { rewrite Zlt_Qlt. change (inject_Z 1) with 1. lra. }
    lia. }
  rewrite R. simpl. eexists. split; reflexivity.
Qed.

Lemma numeric_14_2_too_large (q : Q) :
  inject_Z (10 ^ 12) - (1 # 200) <= q -> numeric_14_2 q = None.
Proof.
  intro H. unfold numeric_14_2.
  assert (P : 0 <= q).
  { assert (0 <= inject_Z (10 ^ 12) - (1 # 200)) by discriminate. lra. }
  assert (L : Qle_bool 0 q = true) by (apply Qle_bool_iff; exact P).
  rewrite L.
  assert (R : (10 ^ 14 <= Qround_half_up (q * 100))%Z).
  { unfold Qround_half_up. rewrite <- (Qfloor_Z (10 ^ 14)) at 1.
    apply Qfloor_resp_le.
    assert (E : inject_Z (10 ^ 14) == inject_Z (10 ^ 12) * 100) by reflexivity.
    rewrite E. lra. }
  assert (F : (Z.abs (Qround_half_up (q * 100)) <? 10 ^ 14)%Z = false)
    by (apply Z.ltb_ge; lia).
  now rewrite F.
Qed.

Lemma int4_too_large (q : Q) : inject_Z (2 ^ 31) <= q -> int4 (Fin q) = None.
Proof.
  intro H. unfold int4.
  assert (F : (2 ^ 31 <= Qfloor q)%Z).
  { rewrite <- (Qfloor_Z (2 ^ 31)). now apply Qfloor_resp_le. }
  assert (G : (Qfloor q <? 2 ^ 31)%Z = false) by (apply Z.ltb_ge; exact F).
  rewrite G, andb_false_r. reflexivity.
Qed.

Lemma insert_request_refused (p : Payload) (d : Db) :
  0 < amount p ->
  overlong 12 (rut p) = true
  \/ amount p < 1 # 200
  \/ inject_Z (10 ^ 12) - (1 # 200) <= amount p
  \/ inject_Z (2 ^ 31) <= term_months p ->
  insert_request p d = None.
Proof.
  intros Ha H. unfold insert_request. destruct d as [t|]; [|reflexivity].
  destruct H as [H | [H | [H | H]]].
  - unfold overlong in H. apply andb_true_iff in H. destruct H as [H _].
    apply Nat.ltb_lt in H.
    unfold varchar. apply Nat.leb_gt in H. now rewrite H.
  - destruct (numeric_14_2_too_small _ Ha H) as [a [-> Pa]].
    destruct (varchar 12 (rut p)); [|reflexivity].
    destruct (int4 (Fin (term_months p))); [|reflexivity].
    destruct (match income p with
              | Some i => option_map Some (numeric_14_2 i)
              | None => Some None
              end); [|reflexivity].
    now rewrite Pa.
  - rewrite (numeric_14_2_too_large _ H).
    destruct (varchar 12 (rut p)); reflexivity.
  - rewrite (int4_too_large _ H).
    destruct (varchar 12 (rut p)); [|reflexivity].
    destruct (numeric_14_2 (amount p)); reflexivity.
Qed.

(** The schema lets through payloads that the table does not take: a
    [rut] with text past its 12 characters, an amount below half a cent
    or of twelve integer digits once rounded, a term of 2^31 months or
    more.
    Such a request is answered 500 [internal_error], whatever the
    queries do, and registers no row. *)
Theorem unstorable_payload_is_internal_error
    (body : jsval) (p : Payload) (w : World) (resp : Response) (w' : World) :
  safeParse is_email body = ParseSuccess p ->
  overlong 12 (rut p) = true
  \/ amount p < 1 # 200
  \/ inject_Z (10 ^ 12) - (1 # 200) <= amount p
  \/ inject_Z (2 ^ 31) <= term_months p ->
  post_apply is_email body w = (resp, w') ->
  resp = mkResponse 500 InternalError
  /\ table_rows (db w') = table_rows (db w).
Proof.
  intros V H E.
  destruct (safeParse_valid is_email body p V) as [_ [_ [_ [Ha _]]]].
  pose proof (insert_request_refused p (create_table_if_not_exists (db w)) Ha H) as N.
  apply post_apply_run in E.
  destruct E as [fs Hf | err Hf Hp | p0 fs Hf Hp _ | p0 row rs d2 st sc fs tr Hp HI _ _
                 | p0 row rs d2 d3 st sc u us tr _ Hp HI _ _]; cbn [db].
  - auto.
  - rewrite V in Hp. discriminate Hp.
  - split; [reflexivity | apply create_table_rows].
  - rewrite V in Hp. injection Hp as <-. rewrite N in HI. discriminate HI.
  - rewrite V in Hp. injection Hp as <-. rewrite N in HI. discriminate HI.
Qed.

End Unstorable.

Section UnstorableRun.

Import Server Spec Runs Sample.
Local Open Scope string_scope.

Lemma unstorable_payload_is_internal_error_witness :
  fst (post_apply sample_is_email
         (VObj [("rut", VStr "11.111.111-1K"); ("full_name", VStr "Ana Rojas");
                ("email", VStr "ana@example.cl"); ("amount", VNum 1500000);
                ("term_months", VNum 24); ("income", VNum 1000000)]) fresh)
  = mkResponse 500 InternalError
  /\ table_rows (db (snd (post_apply sample_is_email
         (VObj [("rut", VStr "11.111.111-1K"); ("full_name", VStr "Ana Rojas");
                ("email", VStr "ana@example.cl"); ("amount", VNum 1500000);
                ("term_months", VNum 24); ("income", VNum 1000000)]) fresh)))
     = table_rows (db fresh).
Proof.
  apply (unstorable_payload_is_internal_error sample_is_email
           (VObj [("rut", VStr "11.111.111-1K"); ("full_name", VStr "Ana Rojas");
                  ("email", VStr "ana@example.cl"); ("amount", VNum 1500000);
                  ("term_months", VNum 24); ("income", VNum 1000000)])
           (mkPayload "11.111.111-1K" "Ana Rojas" "ana@example.cl" 1500000 24
                      (Some 1000000)) fresh).
  - reflexivity.
  - left. reflexivity.
  - reflexivity.
Defined.

End UnstorableRun.
